(** * knockknock: the update state machine of the self-updating supervisor

    A shallow embedding of [supervisor/supervisor.go] (type [Supervisor] and
    its methods) and of the registry client [oras.Client], together with the
    parts of the Go runtime they call: a file system store, the wall clock,
    the semantic-version library and the time layout [20060102-150405]. *)

From Stdlib Require Import ZArith NArith Ascii String List Lia Bool DecimalString.
From Stdlib.Strings Require Byte.
From stdpp Require Import base tactics option list gmap strings sorting.

Local Open Scope string_scope.
Local Open Scope list_scope.
Local Open Scope Z_scope.

(** ** Helpers on strings *)

Module Str.

(** [strings.Split(s, sep)] for a one-byte separator: always at least one
    field. *)
Fixpoint split_on (sep : ascii) (s : string) : list string :=
  match s with
  | EmptyString => [EmptyString]
  | String c s' =>
      if Ascii.eqb c sep then EmptyString :: split_on sep s'
      else match split_on sep s' with
           | x :: r => String c x :: r
           | [] => [String c EmptyString]
           end
  end.

(** [strings.Cut(s, sep)]: the text before the first [sep] and, when there
    is one, the text after it. *)
Fixpoint cut (sep : ascii) (s : string) : string * option string :=
  match s with
  | EmptyString => (EmptyString, None)
  | String c s' =>
      if Ascii.eqb c sep then (EmptyString, Some s')
      else let '(a, b) := cut sep s' in (String c a, b)
  end.

Fixpoint all (p : ascii -> bool) (s : string) : bool :=
  match s with
  | EmptyString => true
  | String c s' => p c && all p s'
  end.

Definition is_digit (c : ascii) : bool :=
  ((48 <=? N_of_ascii c) && (N_of_ascii c <=? 57))%N.

Definition is_letter (c : ascii) : bool :=
  (((65 <=? N_of_ascii c) && (N_of_ascii c <=? 90))
   || ((97 <=? N_of_ascii c) && (N_of_ascii c <=? 122)))%N.

Definition digit_val (c : ascii) : N := (N_of_ascii c - 48)%N.

(** The value of a string of decimal digits, most significant first. *)
Fixpoint dec_value (acc : N) (s : string) : N :=
  match s with
  | EmptyString => acc
  | String c s' => dec_value (10 * acc + digit_val c)%N s'
  end.

Definition nonempty (s : string) : bool :=
  match s with EmptyString => false | _ => true end.

(** [strconv.ParseUint(s, 10, 64)]: a non-empty run of digits whose value
    fits 64 bits. *)
Definition ParseUint (s : string) : option N :=
  if nonempty s && all is_digit s then
    let n := dec_value 0 s in
    if (n <? 2 ^ 64)%N then Some n else None
  else None.

End Str.

(** ** Model of the library [github.com/Masterminds/semver/v3]

    The library is an external dependency of the repository. The model follows
    its version pattern: an optional letter v, one to three dot-separated runs
    of digits, an optional pre-release after a hyphen and optional build
    metadata after a plus sign, both dot-separated non-empty identifiers over
    digits, letters and hyphens. It keeps the 64-bit range of the three
    numbers, the check that a numeric pre-release identifier has no leading
    zero, and the precedence rules of [Version.Compare]. *)

Module semver.

Record Version := mkVersion {
  major : N;
  minor : N;
  patch : N;
  pre : string;
  metadata : string;
  original : string
}.

Definition allowed (c : ascii) : bool :=
  Str.is_digit c || Str.is_letter c || Ascii.eqb c "-"%char.

(** Dot-separated non-empty identifiers over the allowed bytes. *)
Definition identifiers (s : string) : bool :=
  forallb (fun p => Str.nonempty p && Str.all allowed p) (Str.split_on "."%char s).

Definition validatePrerelease (p : string) : bool :=
  forallb
    (fun p =>
       if Str.all Str.is_digit p then
         negb ((1 <? String.length p)%nat
               && match p with String c _ => Ascii.eqb c "0"%char | _ => false end)
       else Str.all allowed p)
    (Str.split_on "."%char p).

Definition strip_v (s : string) : string :=
  match s with
  | String c s' => if Ascii.eqb c "v"%char then s' else s
  | _ => s
  end.

(** The three numbers of the core: one to three dot-separated digit runs,
    the missing ones being zero. *)
Definition parse_core (core : string) : option (N * N * N) :=
  match Str.split_on "."%char core with
  | [a] =>
      x ← Str.ParseUint a; Some (x, 0%N, 0%N)
  | [a; b] =>
      x ← Str.ParseUint a; y ← Str.ParseUint b; Some (x, y, 0%N)
  | [a; b; c] =>
      x ← Str.ParseUint a; y ← Str.ParseUint b; z ← Str.ParseUint c;
      Some (x, y, z)
  | _ => None
  end.

Definition NewVersion (v : string) : option Version :=
  let '(corepre, meta) := Str.cut "+"%char (strip_v v) in
  let '(core, prerel) := Str.cut "-"%char corepre in
  '(x, y, z) ← parse_core core;
  p ← match prerel with
      | None => Some EmptyString
      | Some p => if identifiers p && validatePrerelease p then Some p else None
      end;
  m ← match meta with
      | None => Some EmptyString
      | Some m => if identifiers m then Some m else None
      end;
  Some (mkVersion x y z p m v).

Definition compareSegment (v o : N) : Z :=
  if (v <? o)%N then -1 else if (o <? v)%N then 1 else 0.

Definition comparePrePart (s o : string) : Z :=
  if String.eqb s o then 0
  else if String.eqb s EmptyString then -1
  else if String.eqb o EmptyString then 1
  else
    match Str.ParseUint o, Str.ParseUint s with
    | None, None => if String.ltb o s then 1 else -1
    | None, Some _ => -1
    | Some _, None => 1
    | Some oi, Some si => if (oi <? si)%N then 1 else -1
    end.

(** The loop of [comparePrerelease] over the longer of the two lists; a
    missing identifier reads as the empty string. *)
Fixpoint comparePreLoop (n i : nat) (sparts oparts : list string) : Z :=
  match n with
  | O => 0
  | S n' =>
      let stemp := nth i sparts EmptyString in
      let otemp := nth i oparts EmptyString in
      let d := comparePrePart stemp otemp in
      if negb (d =? 0) then d else comparePreLoop n' (S i) sparts oparts
  end.

Definition comparePrerelease (v o : string) : Z :=
  let sparts := Str.split_on "."%char v in
  let oparts := Str.split_on "."%char o in
  comparePreLoop (Nat.max (length sparts) (length oparts)) 0 sparts oparts.

Definition Compare (v o : Version) : Z :=
  let d := compareSegment (major v) (major o) in
  if negb (d =? 0) then d else
  let d := compareSegment (minor v) (minor o) in
  if negb (d =? 0) then d else
  let d := compareSegment (patch v) (patch o) in
  if negb (d =? 0) then d else
  let ps := pre v in
  let po := pre o in
  if String.eqb ps EmptyString && String.eqb po EmptyString then 0
  else if String.eqb ps EmptyString then 1
  else if String.eqb po EmptyString then -1
  else comparePrerelease ps po.

Definition GreaterThan (v o : Version) : bool := Compare v o =? 1.
Definition LessThan (v o : Version) : bool := Compare v o <? 0.

End semver.

(** ** Model of the Go [time] package, as far as the supervisor uses it

    A [Time] is a civil date and time of day. [time.Now()] yields a reading of
    the clock: the local civil time and the Unix time of the same instant. *)

Module time.

Record Time := mkTime {
  year : Z; month : Z; day : Z;
  hour : Z; minute : Z; second : Z;
  nsec : Z
}.

Record Instant := mkInstant {
  wall : Time;
  unix_nano : Z
}.

(** The zero value [time.Time{}]: January 1, year 1, 00:00:00 UTC. *)
Definition zero : Time := mkTime 1 1 1 0 0 0 0.

Definition Unix (t : Instant) : Z := unix_nano t / 1000000000.
Definition UnixNano (t : Instant) : Z := unix_nano t.

Definition utod (u : Z) : ascii := ascii_of_N (Z.to_N (48 + u)).

Definition decimal (u : Z) : string :=
  NilZero.string_of_uint (N.to_uint (Z.to_N u)).

(** [appendInt(b, x, width)]: the decimal text of [x], zero-padded to
    [width] digits, with the two fast paths of the library. *)
Definition appendInt (x : Z) (width : nat) : string :=
  let sign := if x <? 0 then "-" else "" in
  let u := Z.abs x in
  if (Nat.eqb width 2 && (u <? 100))%bool then
    sign +:+ String (utod (u / 10)) (String (utod (u mod 10)) "")
  else if (Nat.eqb width 4 && (u <? 10000))%bool then
    sign +:+ String (utod (u / 1000)) (String (utod (u / 100 mod 10))
              (String (utod (u / 10 mod 10)) (String (utod (u mod 10)) "")))
  else
    let d := decimal u in
    sign +:+ string_of_list_ascii (repeat "0"%char (width - String.length d)) +:+ d.

(** [t.Format("20060102-150405")] *)
Definition Format (t : Time) : string :=
  appendInt (year t) 4 +:+ appendInt (month t) 2 +:+ appendInt (day t) 2
  +:+ "-" +:+ appendInt (hour t) 2 +:+ appendInt (minute t) 2
  +:+ appendInt (second t) 2.

Definition isDigit (s : string) (i : nat) : bool :=
  match String.get i s with
  | Some c => Str.is_digit c
  | None => false
  end.

Definition dval (c : ascii) : Z := Z.of_N (Str.digit_val c).

(** [getnum(s, fixed)]: one or two leading digits, exactly two when
    [fixed]. *)
Definition getnum (s : string) (fixed : bool) : option (Z * string) :=
  match s with
  | String c0 r0 =>
      if Str.is_digit c0 then
        match r0 with
        | String c1 r1 =>
            if Str.is_digit c1 then Some (dval c0 * 10 + dval c1, r1)
            else if fixed then None else Some (dval c0, r0)
        | EmptyString => if fixed then None else Some (dval c0, r0)
        end
      else None
  | EmptyString => None
  end.

Definition isLeap (y : Z) : bool :=
  (y mod 4 =? 0) && (negb (y mod 100 =? 0) || (y mod 400 =? 0)).

Definition daysIn (m y : Z) : Z :=
  if (m =? 2) && isLeap y then 29
  else if m =? 2 then 28
  else if (m =? 4) || (m =? 6) || (m =? 9) || (m =? 11) then 30
  else 31.

(** The digits of a fractional second that the input carries although the
    layout has none: [parseNanoseconds] on at most nine digits. *)
Fixpoint span_digits (s : string) : string * string :=
  match s with
  | String c r =>
      if Str.is_digit c then let '(a, b) := span_digits r in (String c a, b)
      else (EmptyString, s)
  | EmptyString => (EmptyString, EmptyString)
  end.

Definition parseNanoseconds (digits : string) : Z :=
  let d := String.substring 0 9 digits in
  Z.of_N (Str.dec_value 0 d) * 10 ^ (Z.of_nat (9 - String.length d)).

Definition commaOrPeriod (c : ascii) : bool :=
  Ascii.eqb c "."%char || Ascii.eqb c ","%char.

(** [time.Parse("20060102-150405", value)], element by element: a four-digit
    year, two-digit month and day, a hyphen, an hour of one or two digits,
    two-digit minute and second, an optional fractional second, then the
    range checks and the check of the day against the month. *)
Definition Parse (value : string) : option Time :=
  if (4 <=? String.length value)%nat && Str.all Str.is_digit (String.substring 0 4 value) then
    let y := Z.of_N (Str.dec_value 0 (String.substring 0 4 value)) in
    let value := String.substring 4 (String.length value - 4) value in
    '(mo, value) ← getnum value true;
    '(d, value) ← getnum value true;
    match value with
    | String "-"%char value =>
        '(h, value) ← getnum value false;
        '(mi, value) ← getnum value true;
        '(sc, value) ← getnum value true;
        '(ns, value) ← match value with
                       | String c r =>
                           if commaOrPeriod c && isDigit r 0 then
                             let '(ds, rest) := span_digits r in
                             Some (parseNanoseconds ds, rest)
                           else Some (0, value)
                       | EmptyString => Some (0, value)
                       end;
        if negb (String.eqb value "") then None
        else if (mo <=? 0) || (12 <? mo) then None
        else if 24 <=? h then None
        else if 60 <=? mi then None
        else if 60 <=? sc then None
        else if (d <? 1) || (daysIn mo y <? d) then None
        else Some (mkTime y mo d h mi sc ns)
    | _ => None
    end
  else None.

Definition compare (t u : Time) : comparison :=
  match year t ?= year u with Eq =>
  match month t ?= month u with Eq =>
  match day t ?= day u with Eq =>
  match hour t ?= hour u with Eq =>
  match minute t ?= minute u with Eq =>
  match second t ?= second u with Eq => nsec t ?= nsec u
  | c => c end | c => c end | c => c end | c => c end | c => c end | c => c end.

(** [t.After(u)] *)
Definition After (t u : Time) : bool :=
  match compare t u with Gt => true | _ => false end.

End time.

(** ** The file system

    A path is the list of its components below the root, so
    [filepath.Join(dir, name)] is [dir ++ [name]] for a single component
    [name] (directory names, versions and link names are single components).
    The store maps each path to its node. Calls that create, rename, remove
    or read an entry itself ([Symlink], [Rename], [Remove], [Lstat],
    [Readlink]) address it by the path as written and need its parent to be a
    directory of the store; [Stat], [Open], [Chmod], [ReadDir] and [MkdirAll]
    follow symbolic links through every component. A call fails for the
    reasons the store shows (missing entry, existing entry, wrong kind of
    node), and a call that creates, renames or removes an entry also when
    the system refuses the change. *)

Abbreviation path := (list string).

Inductive node :=
| File (mode : Z) (data : list Byte.byte)
| Dir
| Symlink (target : path).

Global Instance byte_eq_dec : EqDecision Byte.byte := Byte.byte_eq_dec.

Global Instance node_eq_dec : EqDecision node.
Proof. solve_decision. Defined.

Abbreviation FS := (gmap path node).

Inductive errno :=
| ENOENT | EEXIST | ENOTDIR | EISDIR | EINVAL | ENOTEMPTY | ELOOP
| EOF | ErrUnexpectedEOF | EPERM.

Module filepath.

Definition Join (dir : path) (name : string) : path := dir ++ [name].

(** [filepath.Base]: the last element; the root is its own base. *)
Definition Base (p : path) : string := List.last p "/".

Definition Dir (p : path) : path := removelast p.

(** The path whose text is the text of [p] followed by [suffix]. *)
Definition with_suffix (p : path) (suffix : string) : path :=
  match p with
  | [] => [suffix]
  | _ => removelast p ++ [List.last p "" +:+ suffix]
  end.

(** The text of a path, as the strings the program sorts. *)
Fixpoint to_string (p : path) : string :=
  match p with
  | [] => ""
  | c :: r => "/" +:+ c +:+ to_string r
  end.

End filepath.

Module vfs.

Definition is_dir (fs : FS) (p : path) : bool :=
  match p with
  | [] => true
  | _ => match fs !! p with Some Dir => true | _ => false end
  end.

Fixpoint strip_prefix (d k : path) : option path :=
  match d, k with
  | [], _ => Some k
  | x :: d', y :: k' => if decide (x = y) then strip_prefix d' k' else None
  | _ :: _, [] => None
  end.

Definition under (d k : path) : bool :=
  match strip_prefix d k with Some _ => true | None => false end.

(** The entries of directory [d]: name and node. *)
Definition children (fs : FS) (d : path) : list (string * node) :=
  omap (fun kv : path * node =>
          match strip_prefix d kv.1 with
          | Some [n] => Some (n, kv.2)
          | _ => None
          end) (map_to_list fs).

Definition name_le (a b : string * node) : Prop := String.le a.1 b.1.

Global Instance name_le_dec : RelDecision name_le.
Proof. intros a b. unfold name_le. apply _. Defined.

Definition Lstat (fs : FS) (p : path) : errno + node :=
  match p with
  | [] => inr Dir
  | _ => match fs !! p with Some n => inr n | None => inl ENOENT end
  end.

Inductive walk_result :=
| WErr (e : errno)
| WFound (k : path) (n : node)
| WLink (p : path).

(** One pass over the components of a path from directory [cur], up to the
    first symbolic link. *)
Fixpoint walk (fs : FS) (cur : path) (rest : list string) : walk_result :=
  match rest with
  | [] => WFound cur Dir
  | c :: rest' =>
      match fs !! (cur ++ [c]) with
      | None => WErr ENOENT
      | Some (Symlink t) => WLink (t ++ rest')
      | Some Dir => walk fs (cur ++ [c]) rest'
      | Some (File m d) =>
          match rest' with
          | [] => WFound (cur ++ [c]) (File m d)
          | _ => WErr ENOTDIR
          end
      end
  end.

(** Resolution with at most [hops] symbolic links followed. *)
Fixpoint resolve (hops : nat) (fs : FS) (p : path) : errno + (path * node) :=
  match walk fs [] p with
  | WErr e => inl e
  | WFound k n => inr (k, n)
  | WLink p' =>
      match hops with
      | O => inl ELOOP
      | S h => resolve h fs p'
      end
  end.

Definition max_hops : nat := 40.

Definition Stat (fs : FS) (p : path) : errno + node :=
  match resolve max_hops fs p with
  | inl e => inl e
  | inr (_, n) => inr n
  end.

(** Size in bytes; for a directory, that of a directory as the system makes
    it. *)
Definition Size (n : node) : Z :=
  match n with
  | File _ d => Z.of_nat (length d)
  | Dir => 4096
  | Symlink t => Z.of_nat (String.length (filepath.to_string t))
  end.

(** Permission bits; for a directory, those MkdirAll asks for. *)
Definition Mode (n : node) : Z :=
  match n with
  | File m _ => m
  | Dir => 493
  | Symlink _ => 511
  end.

Definition IsDir (n : node) : bool :=
  match n with Dir => true | _ => false end.

Definition IsSymlink (n : node) : bool :=
  match n with Symlink _ => true | _ => false end.

Definition Readlink (fs : FS) (p : path) : errno + path :=
  match fs !! p with
  | Some (Symlink t) => inr t
  | Some _ => inl EINVAL
  | None => match p with [] => inl EINVAL | _ => inl ENOENT end
  end.

(** [os.ReadDir] follows symbolic links to the directory it lists; the
    entries come sorted by name, each with the node stored under it. *)
Definition ReadDir (fs : FS) (d : path) : errno + list (string * node) :=
  match resolve max_hops fs d with
  | inl e => inl e
  | inr (k, Dir) => inr (merge_sort name_le (children fs k))
  | inr (_, _) => inl ENOTDIR
  end.

Definition Mkdir (fs : FS) (p : path) : errno + FS :=
  match p with
  | [] => inl EEXIST
  | _ =>
      if negb (is_dir fs (filepath.Dir p)) then inl ENOENT
      else match fs !! p with
           | Some _ => inl EEXIST
           | None => inr (<[p := Dir]> fs)
           end
  end.

(** [os.MkdirAll] on the reversed path: succeed at once when the path is a
    directory, otherwise make the parent and then the directory itself. *)
Fixpoint MkdirAll_rev (fs : FS) (rp : list string) : errno + FS :=
  match Stat fs (rev rp) with
  | inr n => if IsDir n then inr fs else inl ENOTDIR
  | inl _ =>
      match rp with
      | [] => inl ENOENT
      | _ :: rparent =>
          match MkdirAll_rev fs rparent with
          | inl e => inl e
          | inr fs1 =>
              match Mkdir fs1 (rev rp) with
              | inr fs2 => inr fs2
              | inl e =>
                  match Lstat fs1 (rev rp) with
                  | inr Dir => inr fs1
                  | _ => inl e
                  end
              end
          end
      end
  end.

Definition MkdirAll (fs : FS) (p : path) : errno + FS := MkdirAll_rev fs (rev p).

Definition Symlink (fs : FS) (target newname : path) : errno + FS :=
  match newname with
  | [] => inl EEXIST
  | _ =>
      if negb (is_dir fs (filepath.Dir newname)) then inl ENOENT
      else match fs !! newname with
           | Some _ => inl EEXIST
           | None => inr (<[newname := Symlink target]> fs)
           end
  end.

Definition has_children (fs : FS) (p : path) : bool :=
  match children fs p with [] => false | _ => true end.

Definition Remove (fs : FS) (p : path) : errno + FS :=
  match fs !! p with
  | None => inl ENOENT
  | Some Dir => if has_children fs p then inl ENOTEMPTY else inr (delete p fs)
  | Some _ => inr (delete p fs)
  end.

(** The store after the subtree at [src] has moved to [dst]. *)
Definition move_tree (fs : FS) (src dst : path) : FS :=
  list_to_map
    (omap (fun kv : path * node =>
             match strip_prefix src kv.1 with
             | Some r => Some (dst ++ r, kv.2)
             | None => None
             end) (map_to_list fs))
  ∪ filter (fun kv : path * node => under src kv.1 = false ∧ under dst kv.1 = false) fs.

(** [os.Rename]: a file or link replaces a non-directory destination in one
    step; a directory moves with its subtree, onto nothing or onto an empty
    directory, and never into itself. *)
Definition Rename (fs : FS) (src dst : path) : errno + FS :=
  match fs !! src with
  | None => inl ENOENT
  | Some n =>
      if decide (src = dst) then inr fs
      else if negb (is_dir fs (filepath.Dir dst)) then inl ENOENT
      else
        match n with
        | Dir =>
            if under src dst then inl EINVAL
            else match fs !! dst with
                 | None => inr (move_tree fs src dst)
                 | Some Dir =>
                     if has_children fs dst then inl ENOTEMPTY
                     else inr (move_tree fs src dst)
                 | Some _ => inl ENOTDIR
                 end
        | _ =>
            match dst, fs !! dst with
            | [], _ => inl EISDIR
            | _, Some Dir => inl EISDIR
            | _, _ => inr (<[dst := n]> (delete src fs))
            end
        end
  end.

Definition Chmod (fs : FS) (p : path) (mode : Z) : errno + FS :=
  match resolve max_hops fs p with
  | inl e => inl e
  | inr (k, File _ d) => inr (<[k := File mode d]> fs)
  | inr (_, _) => inr fs
  end.

(** [os.Open] for reading: the node the path resolves to. *)
Definition Open (fs : FS) (p : path) : errno + node := Stat fs p.

End vfs.

Module io.

(** [io.ReadFull(file, buf)] with [len(buf) = n], from the start of an open
    file. *)
Definition ReadFull (f : node) (n : nat) : errno + list Byte.byte :=
  match f with
  | File _ d =>
      if (n <=? length d)%nat then inr (take n d)
      else match d with [] => inl EOF | _ => inl ErrUnexpectedEOF end
  | Dir => inl EISDIR
  | Symlink _ => inl EINVAL
  end.

End io.

(** ** The world of a supervisor process and its monad *)

Inductive error :=
| SysErr (e : errno)
| Errorf (msg : string)
| Wrapf (msg : string) (cause : error).

Inductive result (A : Type) :=
| Ok (a : A)
| Err (e : error).
Arguments Ok {A} a.
Arguments Err {A} e.

(** What the registry holds for a tag: the files of the artifact, with the
    mode they are written with, and whether the transfer completes. *)
Record Artifact := mkArtifact {
  art_files : list (string * (Z * list Byte.byte));
  art_complete : bool
}.

(** The remote repository: its tag listing ([None] when the listing fails)
    and its artifacts by tag. *)
Record Registry := mkRegistry {
  reg_tags : option (list string);
  reg_artifacts : string -> option Artifact
}.

Inductive level := INFO | WARN.

(** The calls that change a directory entry. *)
Inductive change_kind := Creating | Renaming | Removing.

(** [refused] holds the entries the system will not let the process create,
    rename or remove (an immutable entry, a directory that may not be
    written, a failing device), with the error it answers. It does not change
    while the supervisor runs. *)
Record World := mkSystem {
  fs : FS;
  registry : Registry;
  clock : nat -> time.Instant;
  ticks : nat;
  log : list (level * string);
  sigterm : nat;
  refused : change_kind -> path -> option errno
}.

(** A world whose system refuses nothing. *)
Definition mkWorld (f : FS) (r : Registry) (c : nat -> time.Instant) (t : nat)
    (l : list (level * string)) (k : nat) : World :=
  mkSystem f r c t l k (fun _ _ => None).

Definition set_fs (w : World) (f : FS) : World :=
  mkSystem f (registry w) (clock w) (ticks w) (log w) (sigterm w) (refused w).

Definition M (A : Type) : Type := World -> result A * World.

Global Instance M_ret : MRet M := fun A a w => (Ok a, w).

Global Instance M_bind : MBind M := fun A B f m w =>
  match m w with
  | (Ok a, w') => f a w'
  | (Err e, w') => (Err e, w')
  end.

Definition raise {A} (e : error) : M A := fun w => (Err e, w).

(** [if err := f(); err != nil { return fmt.Errorf(msg + ": %w", err) }] *)
Definition wrapf {A} (msg : string) (m : M A) : M A := fun w =>
  match m w with
  | (Err e, w') => (Err (Wrapf msg e), w')
  | r => r
  end.

(** Run a call and hand its outcome to the caller, for the errors that are
    tested and not returned. *)
Definition attempt {A} (m : M A) : M (result A) := fun w =>
  let '(r, w') := m w in (Ok r, w').

Fixpoint for_each {A} (l : list A) (body : A -> M unit) : M unit :=
  match l with
  | [] => mret tt
  | x :: r => body x;; for_each r body
  end.

Definition read_fs {A} (f : FS -> errno + A) : M A := fun w =>
  match f (fs w) with
  | inl e => (Err (SysErr e), w)
  | inr a => (Ok a, w)
  end.

Definition write_fs (f : FS -> errno + FS) : M unit := fun w =>
  match f (fs w) with
  | inl e => (Err (SysErr e), w)
  | inr f' => (Ok tt, set_fs w f')
  end.

(** The first refusal among the entries a call would change. *)
Fixpoint refusal (r : change_kind -> path -> option errno)
    (ps : list (change_kind * path)) : option errno :=
  match ps with
  | [] => None
  | (c, p) :: ps' => match r c p with Some e => Some e | None => refusal r ps' end
  end.

(** The outcome of a call that changes the entries [ps]: the error of the
    path itself comes first, then the refusal of the system. *)
Definition allowed (r : change_kind -> path -> option errno)
    (ps : list (change_kind * path)) (res : errno + FS) : errno + FS :=
  match res with
  | inl e => inl e
  | inr f' => match refusal r ps with Some e => inl e | None => inr f' end
  end.

(** A call that makes, replaces or removes the entries [ps]; a call that
    fails changes nothing. *)
Definition change (ps : list (change_kind * path)) (f : FS -> errno + FS) : M unit :=
  fun w =>
  match allowed (refused w) ps (f (fs w)) with
  | inl e => (Err (SysErr e), w)
  | inr f' => (Ok tt, set_fs w f')
  end.

Module os.
Definition Lstat (p : path) : M node := read_fs (fun f => vfs.Lstat f p).
Definition Stat (p : path) : M node := read_fs (fun f => vfs.Stat f p).
Definition Open (p : path) : M node := read_fs (fun f => vfs.Open f p).
Definition Readlink (p : path) : M path := read_fs (fun f => vfs.Readlink f p).
Definition ReadDir (p : path) : M (list (string * node)) :=
  read_fs (fun f => vfs.ReadDir f p).
Definition MkdirAll (p : path) : M unit := write_fs (fun f => vfs.MkdirAll f p).
Definition Symlink (target newname : path) : M unit :=
  change [(Creating, newname)] (fun f => vfs.Symlink f target newname).
Definition Rename (src dst : path) : M unit :=
  change [(Renaming, src); (Renaming, dst)] (fun f => vfs.Rename f src dst).
Definition Remove (p : path) : M unit :=
  change [(Removing, p)] (fun f => vfs.Remove f p).
Definition Chmod (p : path) (mode : Z) : M unit :=
  write_fs (fun f => vfs.Chmod f p mode).
End os.

Module slog.
Definition emit (l : level) (msg : string) : M unit := fun w =>
  (Ok tt, mkSystem (fs w) (registry w) (clock w) (ticks w) (log w ++ [(l, msg)]) (sigterm w)
            (refused w)).
Definition Warn (msg : string) : M unit := emit WARN msg.
Definition Info (msg : string) : M unit := emit INFO msg.
End slog.

(** [time.Now()]: the next reading of the clock. *)
Definition time_Now : M time.Instant := fun w =>
  (Ok (clock w (ticks w)),
   mkSystem (fs w) (registry w) (clock w) (S (ticks w)) (log w) (sigterm w) (refused w)).

(** [syscall.Kill(os.Getpid(), syscall.SIGTERM)]: a process can always signal
    itself; the world counts the signals. *)
Definition syscall_Kill_self : M unit := fun w =>
  (Ok tt, mkSystem (fs w) (registry w) (clock w) (ticks w) (log w) (S (sigterm w)) (refused w)).

Module fmt.
(** The verb [%d]. *)
Definition d (z : Z) : string :=
  (if z <? 0 then "-" else "") +:+ time.decimal (Z.abs z).
End fmt.

(** ** [config.Config] *)

Module config.
Record Config := mkConfig {
  BinaryName : string;
  BinaryDir : path;
  VersionsDir : path;
  Repo : string;
  Version : string
}.

Definition New (binaryName : string) : Config :=
  mkConfig binaryName ["usr"; "local"; "bin"] ["usr"; "local"; "lib"] "" "".
Definition WithRepo (c : Config) (repo : string) : Config :=
  mkConfig (BinaryName c) (BinaryDir c) (VersionsDir c) repo (Version c).
Definition WithVersion (c : Config) (version : string) : Config :=
  mkConfig (BinaryName c) (BinaryDir c) (VersionsDir c) (Repo c) version.
Definition WithBinaryDir (c : Config) (dir : path) : Config :=
  mkConfig (BinaryName c) dir (VersionsDir c) (Repo c) (Version c).
Definition WithVersionsDir (c : Config) (dir : path) : Config :=
  mkConfig (BinaryName c) (BinaryDir c) dir (Repo c) (Version c).
End config.

(** ** The registry client, package [oras] *)

Module oras.

(** The listing of the remote repository, all pages appended. *)
Definition remote_Tags : M (list string) := fun w =>
  match reg_tags (registry w) with
  | Some tags => (Ok tags, w)
  | None => (Err (Errorf "registry: tag listing failed"), w)
  end.

(** One file of an artifact written into [destDir], in place of a file or
    link of that name. *)
Definition write_file (destDir : path) (f : string * (Z * list Byte.byte)) : M unit :=
  write_fs (fun st =>
    let p := filepath.Join destDir f.1 in
    if negb (vfs.is_dir st destDir) then inl ENOENT
    else match st !! p with
         | Some Dir => inl EISDIR
         | _ => inr (<[p := File f.2.1 f.2.2]> st)
         end).

(** [oras.Copy] from the repository into a file store rooted at
    [destDir]. *)
Definition Copy (tag : string) (destDir : path) : M unit := fun w =>
  match reg_artifacts (registry w) tag with
  | None => (Err (Errorf "registry: tag not found"), w)
  | Some a =>
      (for_each (art_files a) (write_file destDir);;
       if art_complete a then mret tt
       else raise (Errorf "registry: transfer interrupted")) w
  end.

(** [Client.Versions] *)
Definition Versions : M (list semver.Version) :=
  tags ← wrapf "failed to list tags" remote_Tags;
  mret (omap semver.NewVersion tags).

(** [Client.DownloadUpdate]; opening the file store at [destDir] touches
    nothing on disk. *)
Definition DownloadUpdate (cfg : config.Config) (version : string) (destDir : path) : M unit :=
  wrapf "failed to create destination dir" (os.MkdirAll destDir);;
  wrapf ("failed to download version " +:+ version) (Copy version destDir);;
  entries ← wrapf "failed to read destination directory" (os.ReadDir destDir);
  for_each entries (fun entry =>
    if vfs.IsDir entry.2 then mret tt
    else if negb (String.eqb entry.1 (config.BinaryName cfg)) then mret tt
    else
      let binaryPath := filepath.Join destDir entry.1 in
      wrapf ("failed to chmod " +:+ entry.1) (os.Chmod binaryPath 493)).

End oras.

(** ** Package [supervisor] *)

Module supervisor.

Record Supervisor := mkSupervisor {
  currentVersion : semver.Version;
  config : config.Config;
  dataDir : path;
  binPath : path
}.

Record HistoricVersion := mkHistoricVersion {
  Version : semver.Version;
  LastInstalled : time.Time
}.

Definition New (cfg : config.Config) : result Supervisor :=
  if String.eqb (config.BinaryName cfg) "" then Err (Errorf "binary name is required")
  else if String.eqb (config.Repo cfg) "" then Err (Errorf "repo is required")
  else if String.eqb (config.Version cfg) "" then Err (Errorf "version is required")
  else if decide (config.VersionsDir cfg = []) then Err (Errorf "versions directory is required")
  else match semver.NewVersion (config.Version cfg) with
       | None => Err (Wrapf "invalid current version" (Errorf "Invalid Semantic Version"))
       | Some v =>
           Ok (mkSupervisor v cfg
                 (filepath.Join (config.VersionsDir cfg) (config.BinaryName cfg))
                 (filepath.Join (config.BinaryDir cfg) (config.BinaryName cfg)))
       end.

Definition CurrentVersion (s : Supervisor) : semver.Version := currentVersion s.

(** [CheckForUpdate]: the three results [update], [allVersions], [err]. *)
Definition CheckForUpdate (s : Supervisor)
  : World -> option semver.Version * list semver.Version * option error :=
  fun w =>
    match oras.Versions w with
    | (Err e, _) => (None, [], Some e)
    | (Ok allVersions, _) =>
        if (length allVersions =? 0)%nat then
          (None, allVersions, Some (Errorf "no versions found in repository"))
        else
          match last allVersions with
          | Some latest =>
              if semver.GreaterThan latest (currentVersion s)
              then (Some latest, allVersions, None)
              else (None, allVersions, None)
          | None => (None, allVersions, None)
          end
    end.

Definition ELF : list Byte.byte := [Byte.x7f; Byte.x45; Byte.x4c; Byte.x46].

(** [verifyBinary] *)
Definition verifyBinary (p : path) : M unit :=
  info ← wrapf "binary not found" (os.Stat p);
  if vfs.Size info =? 0 then raise (Errorf "binary is empty")
  else if Z.land (vfs.Mode info) 73 =? 0 then raise (Errorf "binary is not executable")
  else
    file ← wrapf "failed to open binary" (os.Open p);
    match io.ReadFull file 4 with
    | inl e => raise (Wrapf "failed to read binary header" (SysErr e))
    | inr magic =>
        if negb (bool_decide (magic = ELF))
        then raise (Errorf "binary is not a valid ELF file")
        else mret tt
    end.

Definition is_previous (name : string) : bool :=
  (9 <? String.length name)%nat && String.eqb (String.substring 0 9 name) "previous-".

(** [parsePreviousTimestamp] *)
Definition parsePreviousTimestamp (name : string) : time.Time :=
  if is_previous name then
    let timestamp := String.substring 9 (String.length name - 9) name in
    match time.Parse timestamp with
    | Some t => t
    | None => time.zero
    end
  else time.zero.

Definition path_le (a b : path) : Prop :=
  String.le (filepath.to_string a) (filepath.to_string b).

Global Instance path_le_dec : RelDecision path_le.
Proof. intros a b. unfold path_le. apply _. Defined.

(** [sort.Strings] on the texts of paths. *)
Definition sort_Strings (l : list path) : list path := merge_sort path_le l.

(** [getBackupSymlinks] *)
Definition getBackupSymlinks (s : Supervisor) : M (list path) :=
  entries ← os.ReadDir (dataDir s);
  let backups :=
    omap (fun entry : string * node =>
            if vfs.IsSymlink entry.2 && is_previous entry.1
            then Some (filepath.Join (dataDir s) entry.1)
            else None) entries in
  mret (sort_Strings backups).

(** [cleanupOldBackups] *)
Definition cleanupOldBackups (s : Supervisor) (keep : nat) : M unit :=
  backups ← getBackupSymlinks s;
  if (keep <? length backups)%nat then
    let toRemove := take (length backups - keep) backups in
    for_each toRemove (fun backup =>
      r ← attempt (os.Remove backup);
      match r with
      | Err _ => slog.Warn "failed to remove old backup"
      | Ok _ => mret tt
      end)
  else mret tt.

(** [migrateLegacyBinary] *)
Definition migrateLegacyBinary (s : Supervisor) : M unit :=
  slog.Info "migrating legacy binary installation";;
  let legacyVersionDir :=
    filepath.Join (filepath.Join (dataDir s) "versions") "legacy" in
  wrapf "failed to create legacy version directory" (os.MkdirAll legacyVersionDir);;
  let legacyBinaryPath := filepath.Join legacyVersionDir (config.BinaryName (config s)) in
  wrapf "failed to move legacy binary" (os.Rename (binPath s) legacyBinaryPath);;
  now ← time_Now;
  let timestamp := time.Format (time.wall now) in
  let backupLink := filepath.Join (dataDir s) ("previous-" +:+ timestamp) in
  r ← attempt (os.Symlink legacyVersionDir backupLink);
  match r with
  | Err _ => slog.Warn "failed to create backup symlink for legacy version"
  | Ok _ => mret tt
  end;;
  slog.Info "legacy binary migrated successfully".

(** [updateBinSymlink] *)
Definition updateBinSymlink (s : Supervisor) : M unit :=
  let currentBinary :=
    filepath.Join (filepath.Join (dataDir s) "current") (config.BinaryName (config s)) in
  wrapf "current binary does not exist" (os.Stat currentBinary);;
  r ← attempt (os.Lstat (binPath s));
  match r with
  | Ok info =>
      if negb (vfs.IsSymlink info)
      then wrapf "failed to migrate legacy binary" (migrateLegacyBinary s)
      else mret tt
  | Err _ => mret tt
  end;;
  now ← time_Now;
  let tempBinLink :=
    filepath.with_suffix (binPath s) (".tmp." +:+ fmt.d (time.UnixNano now)) in
  wrapf "failed to create temp bin symlink" (os.Symlink currentBinary tempBinLink);;
  r ← attempt (os.Rename tempBinLink (binPath s));
  match r with
  | Err e =>
      attempt (os.Remove tempBinLink);;
      raise (Wrapf "failed to swap bin symlink" e)
  | Ok _ => mret tt
  end.

(** [Update] *)
Definition Update (s : Supervisor) (version : string) : M unit :=
  let versionsDir := filepath.Join (dataDir s) "versions" in
  wrapf "failed to create versions directory" (os.MkdirAll versionsDir);;
  let versionDir := filepath.Join versionsDir version in
  wrapf "failed to create version directory" (os.MkdirAll versionDir);;
  wrapf ("failed to download version " +:+ version)
    (oras.DownloadUpdate (config s) version versionDir);;
  let binaryPath := filepath.Join versionDir (config.BinaryName (config s)) in
  wrapf "binary verification failed" (verifyBinary binaryPath);;
  let currentLink := filepath.Join (dataDir s) "current" in
  r ← attempt (os.Lstat currentLink);
  match r with
  | Ok _ =>
      now ← time_Now;
      let timestamp := time.Format (time.wall now) in
      let backupLink := filepath.Join (dataDir s) ("previous-" +:+ timestamp) in
      target ← wrapf "failed to read current symlink" (os.Readlink currentLink);
      wrapf "failed to create backup symlink" (os.Symlink target backupLink)
  | Err _ => mret tt
  end;;
  now ← time_Now;
  let tempLink :=
    filepath.Join (dataDir s) ("current.tmp." +:+ fmt.d (time.Unix now)) in
  wrapf "failed to create temporary symlink" (os.Symlink versionDir tempLink);;
  r ← attempt (os.Rename tempLink currentLink);
  match r with
  | Err e =>
      attempt (os.Remove tempLink);;
      raise (Wrapf "failed to swap symlink" e)
  | Ok _ =>
      wrapf "failed to update bin symlink" (updateBinSymlink s);;
      r ← attempt (cleanupOldBackups s 3);
      match r with
      | Err _ => slog.Warn "failed to cleanup old backups"
      | Ok _ => mret tt
      end;;
      wrapf "failed to send termination signal" syscall_Kill_self
  end.

(** [Rollback] *)
Definition Rollback (s : Supervisor) : M unit :=
  backups ← wrapf "failed to find backup symlinks" (getBackupSymlinks s);
  match last backups with
  | None => raise (Errorf "no backup symlinks found, cannot rollback")
  | Some latestBackup =>
      target ← wrapf "failed to read backup symlink" (os.Readlink latestBackup);
      let binaryPath := filepath.Join target (config.BinaryName (config s)) in
      wrapf "backup version binary verification failed" (verifyBinary binaryPath);;
      let currentLink := filepath.Join (dataDir s) "current" in
      now ← time_Now;
      let tempLink :=
        filepath.Join (dataDir s) ("current.tmp." +:+ fmt.d (time.UnixNano now)) in
      wrapf "failed to create temporary symlink" (os.Symlink target tempLink);;
      r ← attempt (os.Rename tempLink currentLink);
      match r with
      | Err e =>
          attempt (os.Remove tempLink);;
          raise (Wrapf "failed to swap symlink" e)
      | Ok _ =>
          wrapf "failed to update bin symlink" (updateBinSymlink s);;
          r ← attempt (os.Remove latestBackup);
          match r with
          | Err _ => slog.Warn "failed to remove backup symlink"
          | Ok _ => mret tt
          end;;
          wrapf "failed to send termination signal" syscall_Kill_self
      end
  end.

Definition after (a b : HistoricVersion) : Prop :=
  time.After (LastInstalled a) (LastInstalled b) = true.

Global Instance after_dec : RelDecision after.
Proof. intros a b. unfold after. apply _. Defined.

(** [sort.Slice(history, ...)] with the comparison [After] on
    [LastInstalled]: most recent first. *)
Definition sort_history (h : list HistoricVersion) : list HistoricVersion :=
  merge_sort (fun a b => ¬ after b a) h.

(** One turn of the loop of [History] over the backup links. *)
Definition history_entry (f : FS) (backup : path) : option HistoricVersion :=
  match vfs.Readlink f backup with
  | inl _ => None
  | inr target =>
      let versionName := filepath.Base target in
      match semver.NewVersion versionName with
      | None =>
          if String.eqb versionName "legacy" then
            match semver.NewVersion "0.0.0-legacy" with
            | Some v =>
                Some (mkHistoricVersion v (parsePreviousTimestamp (filepath.Base backup)))
            | None => None
            end
          else None
      | Some version =>
          Some (mkHistoricVersion version (parsePreviousTimestamp (filepath.Base backup)))
      end
  end.

(** [History] *)
Definition History (s : Supervisor) (w : World) : list HistoricVersion :=
  match getBackupSymlinks s w with
  | (Err _, _) => []
  | (Ok backups, _) =>
      let history := omap (history_entry (fs w)) backups in
      sort_history history
  end.

End supervisor.

(** * Properties *)

Import supervisor.

(** ** Reasoning about the monad *)

Section monad_facts.
Context {A B : Type}.

Lemma bind_inv (m : M A) (k : A -> M B) w r w' :
  (m ≫= k) w = (r, w') ->
  (exists e, m w = (Err e, w') /\ r = Err e)
  \/ (exists a w1, m w = (Ok a, w1) /\ k a w1 = (r, w')).
Proof.
  unfold mbind, M_bind. destruct (m w) as [[a|e] w1]; intros H.
  - right. eauto.
  - left. inversion H; subst. eauto.
Qed.

Lemma bind_ok (m : M A) (k : A -> M B) w a w1 :
  m w = (Ok a, w1) -> (m ≫= k) w = k a w1.
Proof. intros H. unfold mbind, M_bind. by rewrite H. Qed.

Lemma bind_err (m : M A) (k : A -> M B) w e w1 :
  m w = (Err e, w1) -> (m ≫= k) w = (Err e, w1).
Proof. intros H. unfold mbind, M_bind. by rewrite H. Qed.

Lemma wrapf_inv msg (m : M A) w r w' :
  wrapf msg m w = (r, w') ->
  (exists e, m w = (Err e, w') /\ r = Err (Wrapf msg e))
  \/ (exists a, m w = (Ok a, w') /\ r = Ok a).
Proof.
  unfold wrapf. destruct (m w) as [[a|e] w1]; intros H; inversion H; subst; eauto.
Qed.

Lemma attempt_inv (m : M A) w r w' :
  attempt m w = (r, w') -> exists r0, m w = (r0, w') /\ r = Ok r0.
Proof.
  unfold attempt. destruct (m w) as [r0 w1]. intros H; inversion H; subst; eauto.
Qed.

Lemma read_fs_inv (f : FS -> errno + A) w r w' :
  read_fs f w = (r, w') ->
  w' = w /\ match f (fs w) with inl e => r = Err (SysErr e) | inr a => r = Ok a end.
Proof.
  unfold read_fs. destruct (f (fs w)); intros H; inversion H; subst; auto.
Qed.

End monad_facts.

Lemma bind_assoc {A B C} (m : M A) (f : A -> M B) (g : B -> M C) w :
  ((m ≫= f) ≫= g) w = (m ≫= (fun a => f a ≫= g)) w.
Proof.
  unfold mbind, M_bind. destruct (m w) as [[a|e] w1]; reflexivity.
Qed.

Lemma bind_ext {A B} (m : M A) (f g : A -> M B) w :
  (forall a w', f a w' = g a w') -> (m ≫= f) w = (m ≫= g) w.
Proof.
  intros H. unfold mbind, M_bind. destruct (m w) as [[a|e] w1]; [apply H|reflexivity].
Qed.

Lemma write_fs_inv (f : FS -> errno + FS) w r w' :
  write_fs f w = (r, w') ->
  match f (fs w) with
  | inl e => r = Err (SysErr e) /\ w' = w
  | inr f' => r = Ok tt /\ w' = set_fs w f'
  end.
Proof.
  unfold write_fs. destruct (f (fs w)); intros H; inversion H; subst; auto.
Qed.

(** ** CheckForUpdate *)

Lemma Versions_tags w tags :
  reg_tags (registry w) = Some tags ->
  oras.Versions w = (Ok (omap semver.NewVersion tags), w).
Proof.
  intros H. unfold oras.Versions, wrapf, oras.remote_Tags, mbind, M_bind, mret, M_ret.
  by rewrite H.
Qed.

(** The versions handed back are the parseable tags in registry order, and
    the candidate is read off the last of them. *)
Lemma CheckForUpdate_reads_last s w tags l v :
  reg_tags (registry w) = Some tags ->
  omap semver.NewVersion tags = l ++ [v] ->
  CheckForUpdate s w =
    (if semver.GreaterThan v (currentVersion s) then Some v else None, l ++ [v], None).
Proof.
  intros Ht Hl. unfold CheckForUpdate. rewrite (Versions_tags _ _ Ht), Hl.
  rewrite last_snoc. rewrite length_app. simpl.
  replace (length l + 1 =? 0)%nat with false by (symmetry; apply Nat.eqb_neq; lia).
  by destruct (semver.GreaterThan v (currentVersion s)).
Qed.

Definition v_1_8_0 : semver.Version := semver.mkVersion 1 8 0 "" "" "1.8.0".
Definition v_1_9_0 : semver.Version := semver.mkVersion 1 9 0 "" "" "1.9.0".
Definition v_1_10_0 : semver.Version := semver.mkVersion 1 10 0 "" "" "1.10.0".

Definition no_artifacts : string -> option Artifact := fun _ => None.

Definition epoch : nat -> time.Instant := fun n =>
  time.mkInstant (time.mkTime 2024 1 1 0 0 (Z.of_nat n) 0)
                 (1704067200000000000 + Z.of_nat n * 1000000000).

Definition app_config : config.Config :=
  config.WithVersion (config.WithRepo (config.New "app") "ghcr.io/org/app") "1.8.0".

Definition app_supervisor : Supervisor :=
  mkSupervisor v_1_8_0 app_config
    ["usr"; "local"; "lib"; "app"] ["usr"; "local"; "bin"; "app"].

Example New_app_supervisor : New app_config = Ok app_supervisor.
Proof. reflexivity. Qed.

(** C1 (the code departs from the claim). A registry lists its tags in
    lexical order, so 1.10.0 comes before 1.9.0. CheckForUpdate drops no
    parseable tag and keeps the unparsable one out, yet the candidate it
    reports is 1.9.0, the last tag, although 1.10.0 is listed and has the
    higher semver precedence. *)
Theorem C1_CheckForUpdate_reports_last_not_greatest :
  let w := mkWorld ∅ (mkRegistry (Some ["1.10.0"; "1.9.0"; "latest"]) no_artifacts)
                   epoch 0 [] 0 in
  CheckForUpdate app_supervisor w = (Some v_1_9_0, [v_1_10_0; v_1_9_0], None)
  /\ semver.GreaterThan v_1_10_0 v_1_9_0 = true
  /\ semver.GreaterThan v_1_10_0 (currentVersion app_supervisor) = true.
Proof. vm_compute. done. Qed.

(** C10. When the listing succeeds and no tag parses as a semantic version,
    also when the list is not empty, CheckForUpdate returns the error
    [no versions found in repository] and no update candidate. *)
Theorem C10_CheckForUpdate_no_parseable_tag s w tags :
  reg_tags (registry w) = Some tags ->
  (forall t, t ∈ tags -> semver.NewVersion t = None) ->
  CheckForUpdate s w = (None, [], Some (Errorf "no versions found in repository")).
Proof.
  intros Ht Hnone. unfold CheckForUpdate. rewrite (Versions_tags _ _ Ht).
  assert (omap semver.NewVersion tags = []) as ->.
  { clear Ht. induction tags as [|t tags IH]; [done|].
    simpl. rewrite (Hnone t) by set_solver. apply IH. intros; apply Hnone; set_solver. }
  reflexivity.
Qed.

Lemma C10_witness :
  CheckForUpdate app_supervisor
    (mkWorld ∅ (mkRegistry (Some ["latest"; "stable"]) no_artifacts) epoch 0 [] 0)
  = (None, [], Some (Errorf "no versions found in repository")).
Proof.
  apply (C10_CheckForUpdate_no_parseable_tag _ _ ["latest"; "stable"]).
  - reflexivity.
  - intros t Ht. apply elem_of_cons in Ht as [->|Ht]; [reflexivity|].
    apply elem_of_cons in Ht as [->|Ht]; [reflexivity|]. by apply elem_of_nil in Ht.
Defined.

(** ** Timestamps of backup links *)

Module timestamp.

(** A civil time the clock can show in the layout with a four-digit year. *)
Definition valid (t : time.Time) : Prop :=
  0 <= time.year t <= 9999 /\ 1 <= time.month t <= 12
  /\ 1 <= time.day t <= time.daysIn (time.month t) (time.year t)
  /\ 0 <= time.hour t < 24 /\ 0 <= time.minute t < 60 /\ 0 <= time.second t < 60.

Lemma digit_cases x : 0 <= x <= 9 ->
  x = 0 \/ x = 1 \/ x = 2 \/ x = 3 \/ x = 4 \/ x = 5 \/ x = 6 \/ x = 7 \/ x = 8 \/ x = 9.
Proof. lia. Qed.

Ltac by_digit H :=
  apply digit_cases in H;
  repeat (destruct H as [H|H]; [subst; reflexivity|]); subst; reflexivity.

Lemma is_digit_utod x : 0 <= x <= 9 -> Str.is_digit (time.utod x) = true.
Proof. intros H. by_digit H. Qed.

Lemma dval_utod x : 0 <= x <= 9 -> time.dval (time.utod x) = x.
Proof. intros H. by_digit H. Qed.

Lemma digit_val_utod x : 0 <= x <= 9 -> Str.digit_val (time.utod x) = Z.to_N x.
Proof. intros H. by_digit H. Qed.

Lemma appendInt_2 x : 0 <= x < 100 ->
  time.appendInt x 2 = String (time.utod (x / 10)) (String (time.utod (x mod 10)) "").
Proof.
  intros H. unfold time.appendInt.
  replace (x <? 0) with false by (symmetry; apply Z.ltb_ge; lia).
  rewrite Z.abs_eq by lia.
  replace (x <? 100) with true by (symmetry; apply Z.ltb_lt; lia).
  reflexivity.
Qed.

Lemma appendInt_4 x : 0 <= x < 10000 ->
  time.appendInt x 4 =
  String (time.utod (x / 1000)) (String (time.utod (x / 100 mod 10))
    (String (time.utod (x / 10 mod 10)) (String (time.utod (x mod 10)) ""))).
Proof.
  intros H. unfold time.appendInt.
  replace (x <? 0) with false by (symmetry; apply Z.ltb_ge; lia).
  rewrite Z.abs_eq by lia.
  replace (x <? 10000) with true by (symmetry; apply Z.ltb_lt; lia).
  reflexivity.
Qed.

(** The fifteen bytes of a formatted timestamp. *)
Definition digits (t : time.Time) : string :=
  let u := time.utod in
  let y := time.year t in
  String (u (y / 1000)) (String (u (y / 100 mod 10)) (String (u (y / 10 mod 10))
  (String (u (y mod 10))
  (String (u (time.month t / 10)) (String (u (time.month t mod 10))
  (String (u (time.day t / 10)) (String (u (time.day t mod 10))
  (String "-"
  (String (u (time.hour t / 10)) (String (u (time.hour t mod 10))
  (String (u (time.minute t / 10)) (String (u (time.minute t mod 10))
  (String (u (time.second t / 10)) (String (u (time.second t mod 10)) "")))))))))))))).

Lemma daysIn_le m y : time.daysIn m y <= 31.
Proof. unfold time.daysIn. repeat case_match; lia. Qed.

Lemma Format_digits t : valid t -> time.Format t = digits t.
Proof.
  intros (Hy & Hm & Hd & Hh & Hi & Hs).
  pose proof (daysIn_le (time.month t) (time.year t)).
  unfold time.Format.
  rewrite appendInt_4 by lia. rewrite !appendInt_2 by lia. reflexivity.
Qed.

Section parse_digits.
Variables y1 y2 y3 y4 m1 m2 d1 d2 h1 h2 i1 i2 s1 s2 : ascii.
Hypothesis Hy1 : Str.is_digit y1 = true.
Hypothesis Hy2 : Str.is_digit y2 = true.
Hypothesis Hy3 : Str.is_digit y3 = true.
Hypothesis Hy4 : Str.is_digit y4 = true.
Hypothesis Hm1 : Str.is_digit m1 = true.
Hypothesis Hm2 : Str.is_digit m2 = true.
Hypothesis Hd1 : Str.is_digit d1 = true.
Hypothesis Hd2 : Str.is_digit d2 = true.
Hypothesis Hh1 : Str.is_digit h1 = true.
Hypothesis Hh2 : Str.is_digit h2 = true.
Hypothesis Hi1 : Str.is_digit i1 = true.
Hypothesis Hi2 : Str.is_digit i2 = true.
Hypothesis Hs1 : Str.is_digit s1 = true.
Hypothesis Hs2 : Str.is_digit s2 = true.

Let num2 (a b : ascii) : Z := time.dval a * 10 + time.dval b.
Let num4 : Z :=
  Z.of_N (10 * (10 * (10 * (10 * 0 + Str.digit_val y1) + Str.digit_val y2)
                + Str.digit_val y3) + Str.digit_val y4).

(** What [time.Parse] does on fourteen digits around a hyphen. *)
Lemma Parse_digits :
  time.Parse (String y1 (String y2 (String y3 (String y4 (String m1 (String m2
    (String d1 (String d2 (String "-" (String h1 (String h2 (String i1 (String i2
    (String s1 (String s2 "")))))))))))))))
  = if (num2 m1 m2 <=? 0) || (12 <? num2 m1 m2) then None
    else if 24 <=? num2 h1 h2 then None
    else if 60 <=? num2 i1 i2 then None
    else if 60 <=? num2 s1 s2 then None
    else if (num2 d1 d2 <? 1) || (time.daysIn (num2 m1 m2) num4 <? num2 d1 d2) then None
    else Some (time.mkTime num4 (num2 m1 m2) (num2 d1 d2) (num2 h1 h2)
                           (num2 i1 i2) (num2 s1 s2) 0).
Proof.
  unfold time.Parse. simpl. rewrite Hy1, Hy2, Hy3, Hy4. simpl.
  unfold time.getnum. rewrite Hm1, Hm2. simpl. rewrite Hd1, Hd2. simpl.
  rewrite Hh1, Hh2. simpl. rewrite Hi1, Hi2. simpl. rewrite Hs1, Hs2. simpl.
  reflexivity.
Qed.
End parse_digits.

Lemma num2_utod x : 0 <= x < 100 ->
  time.dval (time.utod (x / 10)) * 10 + time.dval (time.utod (x mod 10)) = x.
Proof.
  intros H. rewrite !dval_utod.
  - pose proof (Z.div_mod x 10). lia.
  - pose proof (Z.mod_pos_bound x 10). lia.
  - split; [apply Z.div_pos; lia|].
    assert (x / 10 < 10) by (apply Z.div_lt_upper_bound; lia). lia.
Qed.

Lemma digit_bounds x : 0 <= x < 10000 ->
  (0 <= x / 1000 <= 9) /\ (0 <= x / 100 mod 10 <= 9)
  /\ (0 <= x / 10 mod 10 <= 9) /\ (0 <= x mod 10 <= 9).
Proof.
  intros H.
  pose proof (Z.mod_pos_bound (x / 100) 10).
  pose proof (Z.mod_pos_bound (x / 10) 10).
  pose proof (Z.mod_pos_bound x 10).
  assert (0 <= x / 1000) by (apply Z.div_pos; lia).
  assert (x / 1000 < 10) by (apply Z.div_lt_upper_bound; lia).
  lia.
Qed.

Lemma num4_utod x : 0 <= x < 10000 ->
  Z.of_N (10 * (10 * (10 * (10 * 0 + Str.digit_val (time.utod (x / 1000)))
                      + Str.digit_val (time.utod (x / 100 mod 10)))
                + Str.digit_val (time.utod (x / 10 mod 10)))
          + Str.digit_val (time.utod (x mod 10))) = x.
Proof.
  intros H. destruct (digit_bounds x H) as (H1 & H2 & H3 & H4).
  rewrite !digit_val_utod by assumption.
  pose proof (Z.div_mod x 10). pose proof (Z.div_mod (x / 10) 10).
  pose proof (Z.div_mod (x / 100) 10).
  assert (x / 10 / 10 = x / 100) by (rewrite Z.div_div by lia; reflexivity).
  assert (x / 100 / 10 = x / 1000) by (rewrite Z.div_div by lia; reflexivity).
  lia.
Qed.

Lemma two_digit_bounds x : 0 <= x < 100 -> (0 <= x / 10 <= 9) /\ (0 <= x mod 10 <= 9).
Proof.
  intros H. pose proof (Z.mod_pos_bound x 10).
  assert (0 <= x / 10) by (apply Z.div_pos; lia).
  assert (x / 10 < 10) by (apply Z.div_lt_upper_bound; lia). lia.
Qed.

(** Parsing a formatted timestamp gives the civil time back, to the
    second. *)
Lemma Parse_Format t : valid t ->
  time.Parse (time.Format t) =
  Some (time.mkTime (time.year t) (time.month t) (time.day t)
                    (time.hour t) (time.minute t) (time.second t) 0).
Proof.
  intros Hv. rewrite (Format_digits t Hv).
  destruct Hv as (Hy & Hm & Hd & Hh & Hi & Hs).
  pose proof (daysIn_le (time.month t) (time.year t)) as Hdi.
  destruct (digit_bounds (time.year t)) as (Y1 & Y2 & Y3 & Y4); [lia|].
  destruct (two_digit_bounds (time.month t)) as [M1 M2]; [lia|].
  destruct (two_digit_bounds (time.day t)) as [D1 D2]; [lia|].
  destruct (two_digit_bounds (time.hour t)) as [H1 H2]; [lia|].
  destruct (two_digit_bounds (time.minute t)) as [I1 I2]; [lia|].
  destruct (two_digit_bounds (time.second t)) as [S1 S2]; [lia|].
  unfold digits. rewrite Parse_digits by (apply is_digit_utod; assumption).
  rewrite !num2_utod by lia. rewrite num4_utod by lia.
  replace (time.month t <=? 0) with false by (symmetry; apply Z.leb_gt; lia).
  replace (12 <? time.month t) with false by (symmetry; apply Z.ltb_ge; lia).
  replace (24 <=? time.hour t) with false by (symmetry; apply Z.leb_gt; lia).
  replace (60 <=? time.minute t) with false by (symmetry; apply Z.leb_gt; lia).
  replace (60 <=? time.second t) with false by (symmetry; apply Z.leb_gt; lia).
  replace (time.day t <? 1) with false by (symmetry; apply Z.ltb_ge; lia).
  replace (time.daysIn (time.month t) (time.year t) <? time.day t)
    with false by (symmetry; apply Z.ltb_ge; lia).
  reflexivity.
Qed.

Lemma is_previous_prefixed ts :
  (0 < String.length ts)%nat -> is_previous ("previous-" +:+ ts) = true.
Proof.
  intros H. unfold is_previous. destruct ts as [|c ts]; [simpl in H; lia|].
  reflexivity.
Qed.

Lemma substring_all s : String.substring 0 (String.length s) s = s.
Proof. induction s as [|c s IH]; simpl; [done|by rewrite IH]. Qed.

Lemma timestamp_of_name ts :
  String.substring 9 (String.length ("previous-" +:+ ts) - 9) ("previous-" +:+ ts) = ts.
Proof.
  change ("previous-" +:+ ts) with
    (String "p" (String "r" (String "e" (String "v" (String "i" (String "o"
      (String "u" (String "s" (String "-" ts))))))))).
  cbn [String.length String.substring Nat.sub].
  rewrite Nat.sub_0_r. apply substring_all.
Qed.

Lemma Format_length t : valid t -> String.length (time.Format t) = 15%nat.
Proof. intros Hv. rewrite (Format_digits t Hv). reflexivity. Qed.

End timestamp.

(** C9. For every civil time the clock can show with a four-digit year, the
    backup link name [previous-] followed by its timestamp parses back to
    that time of day, and formatting the parsed time gives the timestamp
    again, so the link name is rebuilt unchanged. *)
Theorem C9_timestamp_round_trip (t : time.Time) :
  timestamp.valid t ->
  let name := "previous-" +:+ time.Format t in
  time.Format (parsePreviousTimestamp name) = time.Format t
  /\ "previous-" +:+ time.Format (parsePreviousTimestamp name) = name.
Proof.
  intros Hv name. subst name.
  assert (time.Format (parsePreviousTimestamp ("previous-" +:+ time.Format t))
          = time.Format t) as E.
  { unfold parsePreviousTimestamp.
    rewrite timestamp.is_previous_prefixed
      by (rewrite (timestamp.Format_length t Hv); lia).
    rewrite timestamp.timestamp_of_name, (timestamp.Parse_Format t Hv).
    reflexivity. }
  split; [exact E|]. by rewrite E.
Qed.

Definition leap_day_2024 : time.Time := time.mkTime 2024 2 29 23 59 58 123456789.

Lemma C9_witness :
  time.Format (parsePreviousTimestamp ("previous-" +:+ time.Format leap_day_2024))
    = time.Format leap_day_2024
  /\ "previous-" +:+ time.Format (parsePreviousTimestamp
                                   ("previous-" +:+ time.Format leap_day_2024))
     = "previous-" +:+ time.Format leap_day_2024.
Proof.
  apply (C9_timestamp_round_trip leap_day_2024).
  repeat split; vm_compute; first [reflexivity | intros ?; discriminate].
Defined.

(** ** Facts about the file system calls *)

Module vfs_facts.

Lemma strip_prefix_Some d k r : vfs.strip_prefix d k = Some r <-> k = d ++ r.
Proof.
  revert k. induction d as [|x d IH]; intros k; simpl.
  - split; [by intros [= ->]|by intros ->].
  - destruct k as [|y k]; [split; [done|by intros [=]]|].
    case_decide as Hxy.
    + subst y. rewrite IH. split; [by intros ->|by intros [= ->]].
    + split; [done|]. intros [= -> _]. done.
Qed.

Lemma strip_prefix_app d r : vfs.strip_prefix d (d ++ r) = Some r.
Proof. by apply strip_prefix_Some. Qed.

Lemma under_prefix d k : vfs.under d k = true <-> d `prefix_of` k.
Proof.
  unfold vfs.under. destruct (vfs.strip_prefix d k) as [r|] eqn:E.
  - apply strip_prefix_Some in E. split; [intros _; by exists r|done].
  - split; [done|]. intros [r ->]. by rewrite strip_prefix_app in E.
Qed.

Lemma under_false d k : vfs.under d k = false <-> ¬ d `prefix_of` k.
Proof. rewrite <-under_prefix. by destruct (vfs.under d k). Qed.

Lemma elem_of_children (f : FS) d n x :
  (n, x) ∈ vfs.children f d <-> f !! (d ++ [n]) = Some x.
Proof.
  unfold vfs.children. rewrite list_elem_of_omap. split.
  - intros [[k v] [Hin Hk]]. apply elem_of_map_to_list in Hin. simpl in Hk.
    destruct (vfs.strip_prefix d k) as [[|n' [|? ?]]|] eqn:E; simplify_eq.
    apply strip_prefix_Some in E. by subst.
  - intros H. exists (d ++ [n], x). split; [by apply elem_of_map_to_list|].
    simpl. by rewrite strip_prefix_app.
Qed.

Lemma children_NoDup (f : FS) d : NoDup (vfs.children f d).
Proof.
  unfold vfs.children.
  assert (NoDup (map_to_list f)) as Hnd by apply NoDup_map_to_list.
  induction Hnd as [|[k v] l Hnotin Hnd IH]; [constructor|].
  simpl. destruct (vfs.strip_prefix d k) as [[|n [|? ?]]|] eqn:E; try exact IH.
  constructor; [|exact IH].
  rewrite list_elem_of_omap. intros [[k' v'] [Hin Hk]]. simpl in Hk.
  destruct (vfs.strip_prefix d k') as [[|n' [|? ?]]|] eqn:E'; simplify_eq.
  apply strip_prefix_Some in E, E'. by subst.
Qed.

Lemma has_children_false (f : FS) p n :
  vfs.has_children f p = false -> f !! (p ++ [n]) = None.
Proof.
  unfold vfs.has_children. intros H. destruct (f !! (p ++ [n])) as [x|] eqn:E; [|done].
  apply elem_of_children in E. destruct (vfs.children f p); [by apply elem_of_nil in E|done].
Qed.

(** *** Resolution *)

Lemma walk_found (f : FS) cur rest k n :
  vfs.walk f cur rest = vfs.WFound k n ->
  (k = cur /\ n = Dir /\ rest = []) \/ f !! k = Some n.
Proof.
  revert cur. induction rest as [|c rest IH]; intros cur; simpl.
  - intros [= <- <-]. by left.
  - destruct (f !! (cur ++ [c])) as [[m d| |t]|] eqn:E; try done.
    + destruct rest; [|done]. intros [= <- <-]. by right.
    + intros H. apply IH in H as [(-> & -> & ->)|H]; by right.
Qed.

Lemma resolve_lookup (hops : nat) (f : FS) (p k : path) (n : node) :
  vfs.resolve hops f p = inr (k, n) -> (k = [] /\ n = Dir) \/ f !! k = Some n.
Proof.
  revert p. induction hops as [|h IH]; intros p; simpl;
    destruct (vfs.walk f [] p) as [e|k' n'|p'] eqn:E; try done.
  - intros [= <- <-]. apply walk_found in E as [(-> & -> & _)|E]; [by left|by right].
  - intros [= <- <-]. apply walk_found in E as [(-> & -> & _)|E]; [by left|by right].
  - apply IH.
Qed.

Lemma resolve_not_symlink (hops : nat) (f : FS) (p k t : path) :
  vfs.resolve hops f p = inr (k, Symlink t) -> False.
Proof.
  revert p. induction hops as [|h IH]; intros p; simpl.
  - destruct (vfs.walk f [] p) as [e|k' n'|p'] eqn:E; try done.
    intros [= -> ->]. revert E. generalize ([] : path).
    induction p as [|c p IHp]; intros cur; simpl; [done|].
    destruct (f !! (cur ++ [c])) as [[m d| |t']|]; try done.
    + by destruct p.
    + apply IHp.
  - destruct (vfs.walk f [] p) as [e|k' n'|p'] eqn:E; try done; [|apply IH].
    intros [= -> ->]. revert E. generalize ([] : path).
    induction p as [|c p IHp]; intros cur; simpl; [done|].
    destruct (f !! (cur ++ [c])) as [[m d| |t']|]; try done.
    + by destruct p.
    + apply IHp.
Qed.

(** *** Shapes: a node without its permission bits *)

Definition shape (n : node) : node :=
  match n with File _ d => File 0 d | _ => n end.

Definition link_target (f : FS) (p : path) : option path :=
  match f !! p with Some (Symlink t) => Some t | _ => None end.

Definition same_at (f f' : FS) (k : path) : Prop :=
  shape <$> f' !! k = shape <$> f !! k.

Lemma same_at_refl f k : same_at f f k.
Proof. done. Qed.

Lemma same_at_trans f1 f2 f3 k : same_at f1 f2 k -> same_at f2 f3 k -> same_at f1 f3 k.
Proof. unfold same_at. congruence. Qed.

Lemma same_at_eq (f f' : FS) k : f' !! k = f !! k -> same_at f f' k.
Proof. unfold same_at. by intros ->. Qed.

Lemma same_at_link_target f f' k : same_at f f' k -> link_target f' k = link_target f k.
Proof.
  unfold same_at, link_target.
  destruct (f' !! k) as [[]|], (f !! k) as [[]|]; simpl; intros; simplify_eq; done.
Qed.

Lemma same_at_is_Some f f' k : same_at f f' k -> is_Some (f' !! k) <-> is_Some (f !! k).
Proof.
  unfold same_at. destruct (f' !! k), (f !! k); simpl; intros; simplify_eq;
    split; intros [? ?]; simplify_eq; eauto.
Qed.

Lemma same_at_symlink f f' k t :
  same_at f f' k -> f !! k = Some (Symlink t) -> f' !! k = Some (Symlink t).
Proof.
  unfold same_at. intros H E. rewrite E in H.
  destruct (f' !! k) as [[]|]; simpl in H; simplify_eq; done.
Qed.

Lemma same_at_None f f' k : same_at f f' k -> f !! k = None -> f' !! k = None.
Proof.
  unfold same_at. intros H E. rewrite E in H. by destruct (f' !! k).
Qed.

(** Two paths neither of which lies on the way to the other. *)
Definition apart (k d : path) : Prop := ¬ k `prefix_of` d /\ ¬ d `prefix_of` k.

(** *** vfs.MkdirAll only adds directories on the way to its argument *)

Lemma Mkdir_inv (f f' : FS) p :
  vfs.Mkdir f p = inr f' -> f !! p = None /\ f' = <[p := Dir]> f.
Proof.
  unfold vfs.Mkdir. destruct p as [|c p]; [done|].
  destruct (negb _); [done|]. destruct (f !! (c :: p)); [done|]. by intros [= <-].
Qed.

Lemma MkdirAll_rev_frame (f f' : FS) rp :
  vfs.MkdirAll_rev f rp = inr f' ->
  forall k, f' !! k = f !! k
       \/ (f !! k = None /\ f' !! k = Some Dir /\ k `prefix_of` rev rp).
Proof.
  revert f f'. induction rp as [|c rp IH]; intros f f'; simpl.
  - intros [= <-] k. by left.
  - destruct (vfs.Stat f (rev rp ++ [c])) as [e|n].
    + destruct (vfs.MkdirAll_rev f rp) as [e1|f1] eqn:E1; [done|].
      specialize (IH _ _ E1).
      destruct (vfs.Mkdir f1 (rev rp ++ [c])) as [e2|f2] eqn:E2.
      * destruct (vfs.Lstat f1 (rev rp ++ [c])) as [|[]]; try done.
        intros [= <-] k. destruct (IH k) as [?|(? & ? & ?)]; [by left|right].
        repeat split; try done. by apply prefix_app_r.
      * intros [= <-] k. apply Mkdir_inv in E2 as [Hnone ->].
        destruct (decide (k = rev rp ++ [c])) as [->|Hne].
        -- right. rewrite lookup_insert_eq. repeat split; try done.
           destruct (IH (rev rp ++ [c])) as [<-|(? & ? & ?)]; done.
        -- rewrite lookup_insert_ne by done.
           destruct (IH k) as [?|(? & ? & ?)]; [by left|right].
           repeat split; try done. by apply prefix_app_r.
    + destruct (vfs.IsDir n); [|done]. intros [= <-] k. by left.
Qed.

Lemma MkdirAll_frame (f f' : FS) p :
  vfs.MkdirAll f p = inr f' ->
  forall k, f' !! k = f !! k
       \/ (f !! k = None /\ f' !! k = Some Dir /\ k `prefix_of` p).
Proof.
  unfold vfs.MkdirAll. intros H k.
  destruct (MkdirAll_rev_frame _ _ _ H k) as [?|(? & ? & Hp)]; [by left|right].
  by rewrite rev_involutive in Hp.
Qed.

Lemma MkdirAll_same_at (f f' : FS) p k :
  vfs.MkdirAll f p = inr f' -> ¬ k `prefix_of` p -> f' !! k = f !! k.
Proof.
  intros H Hk. destruct (MkdirAll_frame _ _ _ H k) as [?|(? & ? & ?)]; done.
Qed.

Lemma MkdirAll_keeps (f f' : FS) p k x :
  vfs.MkdirAll f p = inr f' -> f !! k = Some x -> f' !! k = Some x.
Proof.
  intros H Hk. destruct (MkdirAll_frame _ _ _ H k) as [->|(? & ? & ?)]; congruence.
Qed.

(** *** vfs.Chmod keeps every shape *)

Lemma Chmod_same_at (f f' : FS) p mode k :
  vfs.Chmod f p mode = inr f' -> same_at f f' k.
Proof.
  unfold vfs.Chmod. destruct (vfs.resolve vfs.max_hops f p) as [e|[k' [m d| |t]]] eqn:E; try done.
  - intros [= <-]. apply resolve_lookup in E as [[_ ?]|E]; [done|].
    unfold same_at. destruct (decide (k' = k)) as [->|Hne].
    + by rewrite lookup_insert_eq, E.
    + by rewrite lookup_insert_ne.
  - by intros [= <-].
  - by intros [= <-].
Qed.

(** *** Symlink, vfs.Remove, Rename *)

Lemma Symlink_inv (f f' : FS) t p :
  vfs.Symlink f t p = inr f' ->
  f !! p = None /\ f' = <[p := Symlink t]> f /\ vfs.is_dir f (filepath.Dir p) = true.
Proof.
  unfold vfs.Symlink. destruct p as [|c p]; [done|].
  destruct (vfs.is_dir f (filepath.Dir (c :: p))); [|done]. simpl.
  destruct (f !! (c :: p)); [done|]. by intros [= <-].
Qed.

Lemma Symlink_exists (f : FS) t p x :
  f !! p = Some x -> exists e, vfs.Symlink f t p = inl e /\ (vfs.is_dir f (filepath.Dir p) = true -> e = EEXIST).
Proof.
  unfold vfs.Symlink. intros H. destruct p as [|c p]; [by eexists|].
  destruct (vfs.is_dir f (filepath.Dir (c :: p))); simpl.
  - rewrite H. by eexists.
  - by eexists.
Qed.

Lemma Remove_inv (f f' : FS) p :
  vfs.Remove f p = inr f' -> is_Some (f !! p) /\ f' = delete p f.
Proof.
  unfold vfs.Remove. destruct (f !! p) as [[]|]; try done.
  - by intros [= <-].
  - destruct (vfs.has_children f p); [done|]. by intros [= <-].
  - by intros [= <-].
Qed.

Lemma Remove_symlink (f : FS) p t :
  f !! p = Some (Symlink t) -> vfs.Remove f p = inr (delete p f).
Proof. unfold vfs.Remove. by intros ->. Qed.

End vfs_facts.

Module rename_facts.

Lemma move_tree_moved_keys (f : FS) (src dst k : path) :
  k ∈ (omap (fun kv : path * node =>
               match vfs.strip_prefix src kv.1 with
               | Some r => Some (dst ++ r, kv.2)
               | None => None
               end) (map_to_list f)).*1 ->
  dst `prefix_of` k.
Proof.
  rewrite list_elem_of_fmap. intros [[k' v] [-> Hin]].
  apply list_elem_of_omap in Hin as [[k0 v0] [_ Hk]]. simpl in Hk.
  destruct (vfs.strip_prefix src k0) as [r|]; simplify_eq. by exists r.
Qed.

Lemma lookup_move_tree_other (f : FS) src dst k :
  ¬ src `prefix_of` k -> ¬ dst `prefix_of` k ->
  vfs.move_tree f src dst !! k = f !! k.
Proof.
  intros Hs Hd. unfold vfs.move_tree. rewrite lookup_union.
  rewrite (not_elem_of_list_to_map_1 _ k)
    by (intros Hin; apply Hd; by apply (move_tree_moved_keys f src)).
  rewrite map_lookup_filter. destruct (f !! k) as [x|]; simpl; [|done].
  rewrite option_guard_True; [done|].
  split; by apply vfs_facts.under_false.
Qed.

Lemma lookup_move_tree_dst (f : FS) src dst n :
  f !! src = Some n -> vfs.move_tree f src dst !! dst = Some n.
Proof.
  intros Hsrc. unfold vfs.move_tree. apply lookup_union_Some_l.
  apply elem_of_list_to_map_1'.
  - intros y Hin. apply list_elem_of_omap in Hin as [[k0 v0] [Hin Hk]]. simpl in Hk.
    destruct (vfs.strip_prefix src k0) as [r|] eqn:E; simplify_eq.
    apply vfs_facts.strip_prefix_Some in E. subst k0.
    assert (r = []) as ->.
    { apply (app_inv_head dst). by rewrite app_nil_r. }
    rewrite app_nil_r in Hin. apply elem_of_map_to_list in Hin. congruence.
  - apply list_elem_of_omap. exists (src, n). split; [by apply elem_of_map_to_list|].
    simpl. rewrite <-(app_nil_r src) at 2. rewrite vfs_facts.strip_prefix_app.
    by rewrite app_nil_r.
Qed.

(** Rename touches nothing outside the source and destination subtrees. *)
Lemma Rename_frame (f f' : FS) src dst k :
  vfs.Rename f src dst = inr f' ->
  ¬ src `prefix_of` k -> ¬ dst `prefix_of` k -> f' !! k = f !! k.
Proof.
  unfold vfs.Rename. intros H Hs Hd.
  assert (k <> src) as Hks by (intros ->; by apply Hs).
  assert (k <> dst) as Hkd by (intros ->; by apply Hd).
  destruct (f !! src) as [n|]; [|done].
  case_decide; [by simplify_eq|].
  destruct (negb _); [done|].
  destruct n as [m d| |t].
  - destruct dst as [|c dst]; [done|].
    destruct (f !! (c :: dst)) as [[]|]; simplify_eq;
      by rewrite lookup_insert_ne, lookup_delete_ne.
  - destruct (vfs.under src dst); [done|].
    destruct (f !! dst) as [[]|]; try done.
    + destruct (vfs.has_children f dst); [done|]. simplify_eq.
      by apply lookup_move_tree_other.
    + simplify_eq. by apply lookup_move_tree_other.
  - destruct dst as [|c dst]; [done|].
    destruct (f !! (c :: dst)) as [[]|]; simplify_eq;
      by rewrite lookup_insert_ne, lookup_delete_ne.
Qed.

(** After a rename the destination holds the node the source held. *)
Lemma Rename_dst (f f' : FS) src dst n :
  vfs.Rename f src dst = inr f' -> f !! src = Some n -> f' !! dst = Some n.
Proof.
  unfold vfs.Rename. intros H Hsrc. rewrite Hsrc in H.
  case_decide; [by simplify_eq|].
  destruct (negb _); [done|].
  destruct n as [m d| |t].
  - destruct dst as [|c dst]; [done|].
    destruct (f !! (c :: dst)) as [[]|]; simplify_eq; by rewrite lookup_insert_eq.
  - destruct (vfs.under src dst); [done|].
    destruct (f !! dst) as [[]|]; try done.
    + destruct (vfs.has_children f dst); [done|]. simplify_eq.
      by apply lookup_move_tree_dst.
    + simplify_eq. by apply lookup_move_tree_dst.
  - destruct dst as [|c dst]; [done|].
    destruct (f !! (c :: dst)) as [[]|]; simplify_eq; by rewrite lookup_insert_eq.
Qed.

(** A file or link moves by one deletion and one insertion. *)
Lemma Rename_link (f f' : FS) src dst t :
  vfs.Rename f src dst = inr f' -> f !! src = Some (Symlink t) -> src <> dst ->
  f' = <[dst := Symlink t]> (delete src f).
Proof.
  unfold vfs.Rename. intros H Hsrc Hne. rewrite Hsrc in H.
  case_decide; [done|].
  destruct (negb _); [done|].
  destruct dst as [|c dst]; [done|].
  destruct (f !! (c :: dst)) as [[]|]; by simplify_eq.
Qed.

Lemma Rename_parent (f f' : FS) src dst :
  vfs.Rename f src dst = inr f' -> src <> dst ->
  vfs.is_dir f (filepath.Dir dst) = true.
Proof.
  unfold vfs.Rename. intros H Hne.
  destruct (f !! src) as [n|]; [|done].
  case_decide; [done|].
  by destruct (vfs.is_dir f (filepath.Dir dst)).
Qed.

Lemma Rename_dir_outside (f f' : FS) src dst :
  vfs.Rename f src dst = inr f' -> f !! src = Some Dir -> src <> dst ->
  ¬ src `prefix_of` dst.
Proof.
  unfold vfs.Rename. intros H Hsrc Hne. rewrite Hsrc in H.
  case_decide; [done|].
  destruct (negb _); [done|].
  destruct (vfs.under src dst) eqn:E; [done|]. by apply vfs_facts.under_false.
Qed.

End rename_facts.

(** ** Relations kept by every run of a computation *)

Section preserves.
Context (R : relation World) `{!Reflexive R, !Transitive R}.

Definition preserves {A} (m : M A) : Prop :=
  forall w r w', m w = (r, w') -> R w w'.

Lemma preserves_ret {A} (a : A) : preserves (mret a).
Proof. intros w r w' [= _ <-]. reflexivity. Qed.

Lemma preserves_raise {A} e : preserves (@raise A e).
Proof. intros w r w' [= _ <-]. reflexivity. Qed.

Lemma preserves_bind {A B} (m : M A) (k : A -> M B) :
  preserves m -> (forall a, preserves (k a)) -> preserves (m ≫= k).
Proof.
  intros Hm Hk w r w' H.
  apply bind_inv in H as [(e & H & _)|(a & w1 & H & H')]; [by eapply Hm|].
  etrans; [by eapply Hm|by eapply Hk].
Qed.

Lemma preserves_wrapf {A} msg (m : M A) : preserves m -> preserves (wrapf msg m).
Proof.
  intros Hm w r w' H.
  apply wrapf_inv in H as [(e & H & _)|(a & H & _)]; by eapply Hm.
Qed.


Lemma preserves_for_each {A} (l : list A) (body : A -> M unit) :
  (forall x, x ∈ l -> preserves (body x)) -> preserves (for_each l body).
Proof.
  induction l as [|x l IH]; intros Hb; simpl.
  - apply preserves_ret.
  - apply preserves_bind; [apply Hb; by left|].
    intros _. apply IH. intros y Hy. apply Hb. by right.
Qed.

Lemma preserves_read_fs {A} (f : FS -> errno + A) : preserves (read_fs f).
Proof. intros w r w' H. apply read_fs_inv in H as [-> _]. reflexivity. Qed.

End preserves.

(** The part of the world outside the file system. *)
Definition same_env (w w' : World) : Prop :=
  registry w' = registry w /\ clock w' = clock w /\ ticks w' = ticks w
  /\ log w' = log w /\ sigterm w' = sigterm w /\ refused w' = refused w.

Global Instance same_env_refl : Reflexive same_env.
Proof. by intros w. Qed.

Global Instance same_env_trans : Transitive same_env.
Proof. intros w1 w2 w3 (?&?&?&?&?&?) (?&?&?&?&?&?). repeat split; congruence. Qed.

(** The file-system entries at the paths in [P] keep their shape. *)
Definition frame (P : path -> Prop) (w w' : World) : Prop :=
  forall k, P k -> vfs_facts.same_at (fs w) (fs w') k.

Global Instance frame_refl P : Reflexive (frame P).
Proof. by intros w k _. Qed.

Global Instance frame_trans P : Transitive (frame P).
Proof.
  intros w1 w2 w3 H1 H2 k Hk. eapply vfs_facts.same_at_trans; [by apply H1|by apply H2].
Qed.

Lemma write_fs_same_env f : preserves same_env (write_fs f).
Proof.
  intros w r w' H. apply write_fs_inv in H.
  destruct (f (fs w)); destruct H as [_ ->]; done.
Qed.

Lemma write_fs_frame P f :
  (forall st st' k, f st = inr st' -> P k -> vfs_facts.same_at st st' k) ->
  preserves (frame P) (write_fs f).
Proof.
  intros Hf w r w' H. apply write_fs_inv in H.
  destruct (f (fs w)) as [e|st'] eqn:E; destruct H as [_ ->]; [done|].
  intros k Hk. simpl. by eapply Hf.
Qed.

Lemma allowed_inr r ps res f' :
  allowed r ps res = inr f' -> res = inr f' /\ refusal r ps = None.
Proof.
  unfold allowed. destruct res as [e|f0]; [done|].
  destruct (refusal r ps); [done|]. by intros [= ->].
Qed.

Lemma allowed_free r ps res : refusal r ps = None -> allowed r ps res = res.
Proof. unfold allowed. intros ->. by destruct res. Qed.

Lemma change_inv ps f w r w' :
  change ps f w = (r, w') ->
  match allowed (refused w) ps (f (fs w)) with
  | inl e => r = Err (SysErr e) /\ w' = w
  | inr f' => r = Ok tt /\ w' = set_fs w f'
  end.
Proof.
  unfold change. destruct (allowed _ _ _); intros H; by inversion H.
Qed.


Lemma change_frame P ps f :
  (forall st st' k, f st = inr st' -> P k -> vfs_facts.same_at st st' k) ->
  preserves (frame P) (change ps f).
Proof.
  intros Hf w r w' H. apply change_inv in H.
  destruct (allowed _ _ _) as [e|st'] eqn:E; destruct H as [_ ->]; [done|].
  apply allowed_inr in E as [E _].
  intros k Hk. simpl. by eapply Hf.
Qed.

Lemma MkdirAll_preserves_frame P p :
  (forall k, P k -> ¬ k `prefix_of` p) -> preserves (frame P) (os.MkdirAll p).
Proof.
  intros HP. apply write_fs_frame. intros st st' k H Hk.
  apply vfs_facts.same_at_eq. eapply vfs_facts.MkdirAll_same_at; eauto.
Qed.

Lemma Chmod_preserves_frame P p mode : preserves (frame P) (os.Chmod p mode).
Proof.
  apply write_fs_frame. intros st st' k H _. by eapply vfs_facts.Chmod_same_at.
Qed.

Lemma Symlink_preserves_frame P t p :
  ¬ P p -> preserves (frame P) (os.Symlink t p).
Proof.
  intros HP. apply change_frame. intros st st' k H Hk.
  apply vfs_facts.Symlink_inv in H as (_ & -> & _).
  apply vfs_facts.same_at_eq. rewrite lookup_insert_ne; [done|]. by intros ->.
Qed.

Lemma Remove_preserves_frame P p :
  ¬ P p -> preserves (frame P) (os.Remove p).
Proof.
  intros HP. apply change_frame. intros st st' k H Hk.
  apply vfs_facts.Remove_inv in H as (_ & ->).
  apply vfs_facts.same_at_eq. rewrite lookup_delete_ne; [done|]. by intros ->.
Qed.

Lemma Rename_preserves_frame P src dst :
  (forall k, P k -> ¬ src `prefix_of` k /\ ¬ dst `prefix_of` k) ->
  preserves (frame P) (os.Rename src dst).
Proof.
  intros HP. apply change_frame. intros st st' k H Hk.
  apply vfs_facts.same_at_eq. destruct (HP k Hk). by eapply rename_facts.Rename_frame.
Qed.

Lemma write_file_preserves_frame P d f :
  (forall k, P k -> ¬ d `prefix_of` k) -> preserves (frame P) (oras.write_file d f).
Proof.
  intros HP. apply write_fs_frame. intros st st' k H Hk. cbv beta zeta in H.
  destruct (negb (vfs.is_dir st d)); [done|].
  assert (filepath.Join d f.1 <> k).
  { intros <-. apply (HP _ Hk). by exists [f.1]. }
  apply vfs_facts.same_at_eq.
  destruct (st !! filepath.Join d f.1) as [[]|]; simplify_eq;
    by rewrite lookup_insert_ne.
Qed.

Lemma Copy_preserves (R : relation World) `{!Reflexive R, !Transitive R} tag d :
  (forall f, preserves R (oras.write_file d f)) -> preserves R (oras.Copy tag d).
Proof.
  intros Hw w r w'. unfold oras.Copy.
  destruct (reg_artifacts (registry w) tag) as [a|]; [|intros [= _ <-]; reflexivity].
  assert (preserves R (for_each (art_files a) (oras.write_file d))) as H1
    by (apply preserves_for_each; [exact _ ..|]; intros x _; apply Hw).
  intros H. eapply (preserves_bind R _ _ H1); [|exact H].
  intros []. destruct (art_complete a); [by apply preserves_ret|by apply preserves_raise].
Qed.

Lemma DownloadUpdate_preserves (R : relation World) `{!Reflexive R, !Transitive R}
    cfg version d :
  preserves R (os.MkdirAll d) ->
  (forall f, preserves R (oras.write_file d f)) ->
  (forall p m, preserves R (os.Chmod p m)) ->
  preserves R (oras.DownloadUpdate cfg version d).
Proof.
  intros Hm Hw Hc. unfold oras.DownloadUpdate.
  apply preserves_bind; [exact _ ..|by apply preserves_wrapf|]. intros [].
  apply preserves_bind; [exact _ ..|by apply preserves_wrapf, Copy_preserves|]. intros [].
  apply preserves_bind; [exact _ ..|by apply preserves_wrapf, preserves_read_fs|].
  intros entries. apply preserves_for_each; [exact _ ..|]. intros entry _.
  destruct (vfs.IsDir entry.2); [by apply preserves_ret|].
  destruct (negb _); [by apply preserves_ret|].
  by apply preserves_wrapf.
Qed.

(** ** verifyBinary *)

Definition verify_outcome (st : FS) (p : path) : result unit :=
  match vfs.Stat st p with
  | inl e => Err (Wrapf "binary not found" (SysErr e))
  | inr info =>
      if vfs.Size info =? 0 then Err (Errorf "binary is empty")
      else if Z.land (vfs.Mode info) 73 =? 0 then Err (Errorf "binary is not executable")
      else match io.ReadFull info 4 with
           | inl e => Err (Wrapf "failed to read binary header" (SysErr e))
           | inr magic =>
               if bool_decide (magic = ELF) then Ok tt
               else Err (Errorf "binary is not a valid ELF file")
           end
  end.

Lemma verifyBinary_outcome p w : verifyBinary p w = (verify_outcome (fs w) p, w).
Proof.
  unfold verifyBinary, verify_outcome, os.Stat, os.Open, vfs.Open, wrapf, read_fs,
    mbind, M_bind, raise, mret, M_ret.
  destruct (vfs.Stat (fs w) p) as [e|info] eqn:E; [done|].
  destruct (vfs.Size info =? 0); [done|].
  destruct (Z.land (vfs.Mode info) 73 =? 0); [done|].
  rewrite E.
  destruct (io.ReadFull info 4) as [e|magic]; [done|].
  by destruct (bool_decide (magic = ELF)).
Qed.

Lemma verifyBinary_world p w r w' : verifyBinary p w = (r, w') -> w' = w.
Proof. rewrite verifyBinary_outcome. by intros [= _ <-]. Qed.

Lemma Stat_not_symlink st p t : vfs.Stat st p <> inr (Symlink t).
Proof.
  unfold vfs.Stat. destruct (vfs.resolve vfs.max_hops st p) as [e|[k n]] eqn:E; [done|].
  intros [= ->]. by apply vfs_facts.resolve_not_symlink in E.
Qed.

Lemma ReadFull_File m d n :
  io.ReadFull (File m d) n =
  if (n <=? length d)%nat then inr (take n d)
  else match d with [] => inl EOF | _ => inl ErrUnexpectedEOF end.
Proof. reflexivity. Qed.

Lemma verify_outcome_Ok st p :
  verify_outcome st p = Ok tt <->
  exists m d, vfs.Stat st p = inr (File m d) /\ (0 < length d)%nat
         /\ Z.land m 73 <> 0 /\ take 4 d = ELF.
Proof.
  unfold verify_outcome. split.
  - destruct (vfs.Stat st p) as [e|[m d| |t]] eqn:E; try done.
    + cbn [vfs.Size vfs.Mode]. rewrite ReadFull_File.
      destruct (Z.of_nat (length d) =? 0) eqn:Hsz; [done|].
      destruct (Z.land m 73 =? 0) eqn:Hx; [done|].
      destruct (4 <=? length d)%nat eqn:Hlen; [|by destruct d].
      case_bool_decide as Hm; [|done]. intros _. exists m, d.
      apply Z.eqb_neq in Hsz, Hx. repeat split; [lia|done|done].
    + by apply Stat_not_symlink in E.
  - intros (m & d & -> & Hlen & Hx & Hm). cbn [vfs.Size vfs.Mode]. rewrite ReadFull_File.
    replace (Z.of_nat (length d) =? 0) with false by (symmetry; apply Z.eqb_neq; lia).
    replace (Z.land m 73 =? 0) with false by (symmetry; by apply Z.eqb_neq).
    assert (4 <= length d)%nat as Hl4.
    { assert (length (take 4 d) = 4%nat) as Hl by (by rewrite Hm).
      rewrite length_take in Hl. lia. }
    replace (4 <=? length d)%nat with true by (symmetry; by apply Nat.leb_le).
    by rewrite bool_decide_eq_true_2.
Qed.

(** ** The list of backup links *)

Global Instance path_le_trans : Transitive path_le.
Proof. intros a b c. unfold path_le. apply transitivity. Qed.

Global Instance path_le_total : Total path_le.
Proof. intros a b. unfold path_le. apply total, _. Qed.

Definition select_backup (d : path) (entry : string * node) : option path :=
  if vfs.IsSymlink entry.2 && is_previous entry.1
  then Some (filepath.Join d entry.1)
  else None.

(** The backup links among the entries of a listing of the data directory. *)
Definition links_of (s : Supervisor) (entries : list (string * node)) : list path :=
  sort_Strings (omap (select_backup (dataDir s)) entries).

(** The backup links stored in the data directory under its own name: what
    [getBackupSymlinks] returns when no symbolic link leads to the data
    directory. *)
Definition backup_links (s : Supervisor) (f : FS) : list path :=
  sort_Strings
    (omap (select_backup (dataDir s))
          (merge_sort vfs.name_le (vfs.children f (dataDir s)))).

Lemma getBackupSymlinks_run s w :
  getBackupSymlinks s w =
  (match vfs.ReadDir (fs w) (dataDir s) with
   | inl e => Err (SysErr e)
   | inr entries => Ok (links_of s entries)
   end, w).
Proof.
  unfold getBackupSymlinks, os.ReadDir, read_fs, mbind, M_bind, mret, M_ret.
  by destruct (vfs.ReadDir (fs w) (dataDir s)).
Qed.

(** A directory that the store holds under its own name: the walk along its
    path crosses no symbolic link and ends in a directory. *)
Definition real_dir (f : FS) (d : path) : Prop :=
  vfs.walk f [] d = vfs.WFound d Dir.

Lemma resolve_step (h : nat) (f : FS) (p : path) :
  vfs.resolve (S h) f p =
  match vfs.walk f [] p with
  | vfs.WErr e => inl e
  | vfs.WFound k n => inr (k, n)
  | vfs.WLink p' => vfs.resolve h f p'
  end.
Proof. reflexivity. Qed.

Lemma real_dir_resolve f d :
  real_dir f d -> vfs.resolve vfs.max_hops f d = inr (d, Dir).
Proof.
  unfold real_dir. intros H. change vfs.max_hops with (S 39).
  by rewrite resolve_step, H.
Qed.

Lemma real_dir_ReadDir f d :
  real_dir f d -> vfs.ReadDir f d = inr (merge_sort vfs.name_le (vfs.children f d)).
Proof. intros H. unfold vfs.ReadDir. by rewrite (real_dir_resolve _ _ H). Qed.

Lemma getBackupSymlinks_real s w :
  real_dir (fs w) (dataDir s) ->
  getBackupSymlinks s w = (Ok (backup_links s (fs w)), w).
Proof. intros H. rewrite getBackupSymlinks_run. by rewrite (real_dir_ReadDir _ _ H). Qed.

(** The walk along a path looks only at the entries on that path. *)
Lemma walk_ext (f f' : FS) (cur rest : path) :
  (forall q, q <> [] -> q `prefix_of` rest -> f' !! (cur ++ q) = f !! (cur ++ q)) ->
  vfs.walk f' cur rest = vfs.walk f cur rest.
Proof.
  revert cur. induction rest as [|c rest IH]; intros cur H; [done|].
  cbn [vfs.walk]. rewrite (H [c]); [|done|by apply prefix_cons, prefix_nil].
  destruct (f !! (cur ++ [c])) as [[m d| |t]|]; try done.
  apply IH. intros q Hq Hp. rewrite <-!(assoc_L (++)). apply (H (c :: q)); [done|].
  by apply prefix_cons.
Qed.

Lemma real_dir_ext (f f' : FS) (d : path) :
  (forall q, q <> [] -> q `prefix_of` d -> f' !! q = f !! q) ->
  real_dir f d -> real_dir f' d.
Proof. unfold real_dir. intros H <-. by apply walk_ext. Qed.

Lemma real_dir_is_dir (f : FS) (d : path) : real_dir f d -> vfs.is_dir f d = true.
Proof.
  unfold real_dir, vfs.is_dir. intros H. destruct d as [|c d]; [done|].
  apply vfs_facts.walk_found in H as [(? & _)|H]; [done|]. by rewrite H.
Qed.

Lemma elem_of_links_in s f k p :
  p ∈ links_of s (merge_sort vfs.name_le (vfs.children f k)) <->
  exists n t, p = dataDir s ++ [n] /\ is_previous n = true
         /\ f !! (k ++ [n]) = Some (Symlink t).
Proof.
  unfold links_of, sort_Strings. rewrite merge_sort_Permutation.
  rewrite list_elem_of_omap. split.
  - intros [[n x] [Hin Hsel]]. rewrite merge_sort_Permutation in Hin.
    apply vfs_facts.elem_of_children in Hin.
    unfold select_backup in Hsel. simpl in Hsel.
    destruct x as [m d| |t]; simpl in Hsel; try done.
    destruct (is_previous n) eqn:Hn; [|done]. simplify_eq. by exists n, t.
  - intros (n & t & -> & Hn & Hf). exists (n, Symlink t). split.
    + rewrite merge_sort_Permutation. by apply vfs_facts.elem_of_children.
    + unfold select_backup. simpl. by rewrite Hn.
Qed.

Lemma elem_of_backup_links s f p :
  p ∈ backup_links s f <->
  exists n t, p = dataDir s ++ [n] /\ is_previous n = true /\ f !! p = Some (Symlink t).
Proof.
  unfold backup_links. fold (links_of s (merge_sort vfs.name_le (vfs.children f (dataDir s)))).
  rewrite elem_of_links_in. split; intros (n & t & -> & Hn & Hf); by exists n, t.
Qed.

Lemma links_of_sorted s entries : StronglySorted path_le (links_of s entries).
Proof. apply StronglySorted_merge_sort; apply _. Qed.

Lemma backup_links_sorted s f : StronglySorted path_le (backup_links s f).
Proof. apply StronglySorted_merge_sort; apply _. Qed.

Lemma NoDup_omap_inj {A B} (g : A -> option B) (l : list A) :
  NoDup l ->
  (forall x y z, x ∈ l -> y ∈ l -> g x = Some z -> g y = Some z -> x = y) ->
  NoDup (omap g l).
Proof.
  induction 1 as [|x l Hx Hnd IH]; intros Hinj; [constructor|].
  simpl. destruct (g x) as [z|] eqn:E.
  - constructor.
    + rewrite list_elem_of_omap. intros [y [Hy Hgy]].
      assert (x = y) as -> by (eapply Hinj; [by left|by right|done|done]). done.
    + apply IH. intros x' y' z' ? ? ? ?. eapply Hinj; try done; by right.
  - apply IH. intros x' y' z' ? ? ? ?. eapply Hinj; try done; by right.
Qed.

Lemma backup_links_NoDup s f : NoDup (backup_links s f).
Proof.
  unfold backup_links, sort_Strings. rewrite merge_sort_Permutation.
  apply NoDup_omap_inj.
  - rewrite merge_sort_Permutation. apply vfs_facts.children_NoDup.
  - intros [n x] [n' x'] z Hin Hin'. rewrite merge_sort_Permutation in Hin, Hin'.
    apply vfs_facts.elem_of_children in Hin, Hin'.
    unfold select_backup. simpl.
    destruct (vfs.IsSymlink x && is_previous n); [|done].
    destruct (vfs.IsSymlink x' && is_previous n'); [|done].
    intros [= <-] [= Heq]. apply app_inv_head in Heq. simplify_eq. done.
Qed.

Lemma string_app_cons (x : ascii) (a b : string) :
  String x a +:+ b = String x (a +:+ b).
Proof. reflexivity. Qed.

Lemma string_app_assoc (a b c : string) : (a +:+ b) +:+ c = a +:+ (b +:+ c).
Proof. induction a as [|x a IH]; [done|]. rewrite !string_app_cons. by rewrite IH. Qed.

Lemma string_app_nil_r (a : string) : a +:+ "" = a.
Proof. induction a as [|x a IH]; [done|]. rewrite string_app_cons. by rewrite IH. Qed.

Lemma to_string_app d r :
  filepath.to_string (d ++ r) = filepath.to_string d +:+ filepath.to_string r.
Proof.
  induction d as [|c d IH]; [done|].
  cbn [app filepath.to_string]. rewrite IH.
  by rewrite !string_app_assoc.
Qed.

Lemma to_string_child_inj d n n' :
  filepath.to_string (d ++ [n]) = filepath.to_string (d ++ [n']) -> n = n'.
Proof.
  rewrite !to_string_app. intros H. apply (inj (String.app _)) in H.
  cbn [filepath.to_string] in H. rewrite !string_app_nil_r in H.
  change ("/" +:+ n) with (String "/" n) in H.
  change ("/" +:+ n') with (String "/" n') in H.
  by injection H.
Qed.

(** On the entries of one directory the order of the texts is a linear
    order. *)
Lemma path_le_antisym_child d n n' :
  path_le (d ++ [n]) (d ++ [n']) -> path_le (d ++ [n']) (d ++ [n]) -> n = n'.
Proof.
  unfold path_le. intros H1 H2. apply (to_string_child_inj d).
  by apply (anti_symm String.le).
Qed.

Lemma backup_links_unique s f l :
  StronglySorted path_le l -> NoDup l ->
  (forall p, p ∈ l <-> p ∈ backup_links s f) ->
  l = backup_links s f.
Proof.
  intros Hs Hnd Hel. apply (StronglySorted_unique_strong path_le).
  - intros p q Hp Hq H1 H2. apply Hel in Hp.
    apply elem_of_backup_links in Hp as (n & _ & -> & _),  Hq as (n' & _ & -> & _).
    f_equal. f_equal. by eapply path_le_antisym_child.
  - done.
  - apply backup_links_sorted.
  - apply NoDup_Permutation; [done|apply backup_links_NoDup|done].
Qed.

(** The list depends only on the links named [previous-...] in the data
    directory. *)
Lemma backup_links_ext s f f' :
  (forall n, is_previous n = true ->
        vfs_facts.link_target f' (dataDir s ++ [n]) = vfs_facts.link_target f (dataDir s ++ [n])) ->
  backup_links s f' = backup_links s f.
Proof.
  intros H. apply backup_links_unique.
  - apply backup_links_sorted.
  - apply backup_links_NoDup.
  - intros p. rewrite !elem_of_backup_links.
    split; intros (n & t & -> & Hn & Hf); exists n, t; repeat split; try done.
    + specialize (H n Hn). unfold vfs_facts.link_target in H. rewrite Hf in H.
      destruct (f !! (dataDir s ++ [n])) as [[]|]; by simplify_eq.
    + specialize (H n Hn). unfold vfs_facts.link_target in H. rewrite Hf in H.
      destruct (f' !! (dataDir s ++ [n])) as [[]|]; by simplify_eq.
Qed.

(** ** The stages of Update

    Update runs four stages in a row: fetch and verify the new version, back
    up the current link, swap the current link, and commit (bin symlink,
    rotation, signal). *)

Section stages.
Variable s : Supervisor.

Definition currentLink : path := filepath.Join (dataDir s) "current".
Definition versionDir (version : string) : path :=
  filepath.Join (filepath.Join (dataDir s) "versions") version.
Definition backupLink (t : time.Instant) : path :=
  filepath.Join (dataDir s) ("previous-" +:+ time.Format (time.wall t)).

Definition Update_fetch (version : string) : M unit :=
  wrapf "failed to create versions directory"
    (os.MkdirAll (filepath.Join (dataDir s) "versions"));;
  wrapf "failed to create version directory" (os.MkdirAll (versionDir version));;
  wrapf ("failed to download version " +:+ version)
    (oras.DownloadUpdate (config s) version (versionDir version));;
  wrapf "binary verification failed"
    (verifyBinary (filepath.Join (versionDir version) (config.BinaryName (config s)))).

Definition Update_backup : M unit :=
  r ← attempt (os.Lstat currentLink);
  match r with
  | Ok _ =>
      now ← time_Now;
      target ← wrapf "failed to read current symlink" (os.Readlink currentLink);
      wrapf "failed to create backup symlink" (os.Symlink target (backupLink now))
  | Err _ => mret tt
  end.

Definition tempLink (now : time.Instant) : path :=
  filepath.Join (dataDir s) ("current.tmp." +:+ fmt.d (time.Unix now)).

Definition Update_swap (version : string) : M unit :=
  now ← time_Now;
  wrapf "failed to create temporary symlink" (os.Symlink (versionDir version) (tempLink now));;
  r ← attempt (os.Rename (tempLink now) currentLink);
  match r with
  | Err e =>
      attempt (os.Remove (tempLink now));;
      raise (Wrapf "failed to swap symlink" e)
  | Ok _ => mret tt
  end.

Definition Update_commit : M unit :=
  wrapf "failed to update bin symlink" (updateBinSymlink s);;
  r ← attempt (cleanupOldBackups s 3);
  match r with
  | Err _ => slog.Warn "failed to cleanup old backups"
  | Ok _ => mret tt
  end;;
  wrapf "failed to send termination signal" syscall_Kill_self.

Lemma Update_stages version w :
  Update s version w =
  (Update_fetch version;; Update_backup;; Update_swap version;; Update_commit) w.
Proof.
  unfold Update, Update_fetch, Update_backup, Update_swap, Update_commit.
  fold currentLink. fold (versionDir version).
  rewrite !bind_assoc. do 4 (apply bind_ext; intros [] ?; rewrite ?bind_assoc).
  apply bind_ext. intros r w1. rewrite ?bind_assoc.
  apply bind_ext. intros [] w2. rewrite !bind_assoc.
  apply bind_ext. intros now w3. rewrite !bind_assoc.
  apply bind_ext. intros [] w4. rewrite !bind_assoc.
  apply bind_ext. intros [[]|e] w5; [reflexivity|].
  rewrite bind_assoc. apply bind_ext. intros ? ?. reflexivity.
Qed.

End stages.

(** The step an error comes from: its outermost message. *)
Definition site (e : error) : string :=
  match e with
  | Wrapf m _ => m
  | Errorf m => m
  | SysErr _ => ""
  end.

Lemma wrapf_site {A} msg (m : M A) w e w' :
  wrapf msg m w = (Err e, w') -> site e = msg.
Proof. intros H. apply wrapf_inv in H as [(e0 & _ & [= ->])|(a & _ & ?)]; done. Qed.

Definition tick (w : World) : World :=
  mkSystem (fs w) (registry w) (clock w) (S (ticks w)) (log w) (sigterm w) (refused w).

Lemma time_Now_run w : time_Now w = (Ok (clock w (ticks w)), tick w).
Proof. reflexivity. Qed.

(** A relation on stores, read on worlds. *)
Definition on_fs (Rf : relation FS) : relation World :=
  fun w w' => Rf (fs w) (fs w').

Definition fs_same (w w' : World) : Prop := fs w' = fs w.

Global Instance fs_same_refl : Reflexive fs_same.
Proof. by intros w. Qed.

Global Instance fs_same_trans : Transitive fs_same.
Proof. intros w1 w2 w3. unfold fs_same. congruence. Qed.

Section fetch.
Variable s : Supervisor.
Variable version : string.

Let vdir : path := versionDir s version.

Lemma versions_prefix : filepath.Join (dataDir s) "versions" `prefix_of` vdir.
Proof. by exists [version]. Qed.

Lemma Update_fetch_env : preserves same_env (Update_fetch s version).
Proof.
  unfold Update_fetch.
  apply preserves_bind; [exact _ ..|apply preserves_wrapf, write_fs_same_env|]. intros [].
  apply preserves_bind; [exact _ ..|apply preserves_wrapf, write_fs_same_env|]. intros [].
  apply preserves_bind; [exact _ ..| |].
  - apply preserves_wrapf, DownloadUpdate_preserves; try exact _;
      intros; apply write_fs_same_env.
  - intros []. apply preserves_wrapf. intros w r w' H.
    apply verifyBinary_world in H as ->. reflexivity.
Qed.

(** Fetching touches only the version directory and the directories on the
    way to it. *)
Lemma Update_fetch_frame :
  preserves (frame (fun k => vfs_facts.apart k vdir)) (Update_fetch s version).
Proof.
  unfold Update_fetch.
  apply preserves_bind; [exact _ ..| |].
  { apply preserves_wrapf, MkdirAll_preserves_frame. intros k [Hk _] Hp.
    apply Hk. etrans; [exact Hp|apply versions_prefix]. }
  intros [].
  apply preserves_bind; [exact _ ..| |].
  { apply preserves_wrapf, MkdirAll_preserves_frame. by intros k [Hk _]. }
  intros [].
  apply preserves_bind; [exact _ ..| |].
  - apply preserves_wrapf, DownloadUpdate_preserves; try exact _.
    + apply MkdirAll_preserves_frame. by intros k [Hk _].
    + intros f. apply write_file_preserves_frame. by intros k [_ Hk].
    + intros. apply Chmod_preserves_frame.
  - intros []. apply preserves_wrapf. intros w r w' H.
    apply verifyBinary_world in H as ->. reflexivity.
Qed.

Definition fetch_sites : list string :=
  [ "failed to create versions directory";
    "failed to create version directory";
    "failed to download version " +:+ version;
    "binary verification failed" ].

Lemma Update_fetch_site w e w' :
  Update_fetch s version w = (Err e, w') -> site e ∈ fetch_sites.
Proof.
  unfold Update_fetch, fetch_sites. intros H.
  apply bind_inv in H as [(e0 & H & [= ->])|([] & w1 & _ & H)].
  { apply wrapf_site in H as ->. set_solver. }
  apply bind_inv in H as [(e0 & H & [= ->])|([] & w2 & _ & H)].
  { apply wrapf_site in H as ->. set_solver. }
  apply bind_inv in H as [(e0 & H & [= ->])|([] & w3 & _ & H)].
  { apply wrapf_site in H as ->. set_solver. }
  apply wrapf_site in H as ->. set_solver.
Qed.

(** A failed verification is the last thing a failed fetch can be. *)
Lemma Update_fetch_verify w e w' :
  Update_fetch s version w = (Err e, w') ->
  site e = "binary verification failed" ->
  exists e0, e = Wrapf "binary verification failed" e0
        /\ verify_outcome (fs w') (filepath.Join vdir (config.BinaryName (config s))) = Err e0.
Proof.
  unfold Update_fetch. intros H Hsite.
  apply bind_inv in H as [(e0 & H & [= ->])|([] & w1 & _ & H)].
  { apply wrapf_site in H. rewrite H in Hsite. done. }
  apply bind_inv in H as [(e0 & H & [= ->])|([] & w2 & _ & H)].
  { apply wrapf_site in H. rewrite H in Hsite. done. }
  apply bind_inv in H as [(e0 & H & [= ->])|([] & w3 & _ & H)].
  { apply wrapf_site in H. rewrite H in Hsite.
    change ("failed to download version " +:+ version) with
      (String "f" (String "a" (String "i" (String "l" (String "e" (String "d"
        (String " " (String "t" (String "o" (String " " (String "d"
          ("ownload version " +:+ version)))))))))))) in Hsite.
    done. }
  apply wrapf_inv in H as [(e0 & H & [= ->])|(a & _ & ?)]; [|done].
  rewrite verifyBinary_outcome in H. injection H as H <-. by exists e0.
Qed.

End fetch.

(** ** Names in the data directory *)

Lemma string_app_length (a b : string) :
  String.length (a +:+ b) = (String.length a + String.length b)%nat.
Proof.
  induction a as [|x a IH]; [done|]. rewrite string_app_cons. simpl. by rewrite IH.
Qed.

Lemma is_previous_current : is_previous "current" = false.
Proof. reflexivity. Qed.

Lemma is_previous_versions : is_previous "versions" = false.
Proof. reflexivity. Qed.


Lemma tmp_not_current x : "current.tmp." +:+ x <> "current".
Proof.
  intros H. apply (f_equal String.length) in H.
  rewrite string_app_length in H. simpl in H. lia.
Qed.

Lemma Format_nonempty t : (0 < String.length (time.Format t))%nat.
Proof.
  unfold time.Format. rewrite !string_app_length. simpl. lia.
Qed.

Lemma is_previous_backup t : is_previous ("previous-" +:+ time.Format t) = true.
Proof. apply timestamp.is_previous_prefixed, Format_nonempty. Qed.


Lemma previous_not_versions t : "previous-" +:+ time.Format t <> "versions".
Proof. intros H. pose proof (is_previous_backup t) as Hp. by rewrite H in Hp. Qed.

Lemma Join_inj d n n' : filepath.Join d n = filepath.Join d n' -> n = n'.
Proof. unfold filepath.Join. intros H. apply app_inv_head in H. by injection H. Qed.

Lemma Join_ne d n n' : n <> n' -> filepath.Join d n <> filepath.Join d n'.
Proof. intros H E. by apply H, (Join_inj d). Qed.

Lemma Join_not_nil d n : filepath.Join d n <> [].
Proof. unfold filepath.Join. by destruct d. Qed.

Lemma Dir_Join d n : filepath.Dir (filepath.Join d n) = d.
Proof. unfold filepath.Dir, filepath.Join. apply removelast_last. Qed.

Lemma Base_Join d n : filepath.Base (filepath.Join d n) = n.
Proof. unfold filepath.Base, filepath.Join. apply last_last. Qed.

Lemma Lstat_Join (f : FS) d n :
  vfs.Lstat f (filepath.Join d n) =
  match f !! filepath.Join d n with Some x => inr x | None => inl ENOENT end.
Proof.
  unfold vfs.Lstat. pose proof (Join_not_nil d n).
  by destruct (filepath.Join d n).
Qed.

(** An entry of the data directory other than [versions] is apart from every
    version directory. *)
Lemma apart_child (s : Supervisor) version n :
  n <> "versions" -> vfs_facts.apart (dataDir s ++ [n]) (versionDir s version).
Proof.
  intros Hn. unfold versionDir, filepath.Join. rewrite <-(assoc_L (++)). split.
  - intros H. apply prefix_app_inv in H. simpl in H.
    by apply prefix_cons_inv_1 in H.
  - intros H. apply prefix_app_inv in H. apply prefix_length in H. simpl in H. lia.
Qed.

(** ** The backup and swap stages, as equations *)

Section backup_swap.
Variable s : Supervisor.

Lemma Update_backup_run w :
  Update_backup s w =
  match fs w !! currentLink s with
  | None => (Ok tt, w)
  | Some (Symlink target) =>
      let backup := backupLink s (clock w (ticks w)) in
      match allowed (refused w) [(Creating, backup)]
              (vfs.Symlink (fs w) target backup) with
      | inl e => (Err (Wrapf "failed to create backup symlink" (SysErr e)), tick w)
      | inr f' => (Ok tt, set_fs (tick w) f')
      end
  | Some _ => (Err (Wrapf "failed to read current symlink" (SysErr EINVAL)), tick w)
  end.
Proof.
  unfold Update_backup, attempt, os.Lstat, os.Readlink, os.Symlink, read_fs, change,
    wrapf, mbind, M_bind, mret, M_ret.
  unfold currentLink. rewrite Lstat_Join.
  destruct (fs w !! filepath.Join (dataDir s) "current") as [n|] eqn:E; [|done].
  rewrite time_Now_run. cbn [fs tick]. unfold vfs.Readlink. rewrite E.
  destruct n as [m d| |target]; try done.
  change (fs (tick w)) with (fs w). change (refused (tick w)) with (refused w). cbv zeta.
  by destruct (allowed _ _ (vfs.Symlink (fs w) target _)).
Qed.










End backup_swap.

(** ** Failure of Update *)




Lemma Update_fetch_keeps s version w r w1 n :
  Update_fetch s version w = (r, w1) -> n <> "versions" ->
  vfs_facts.same_at (fs w) (fs w1) (dataDir s ++ [n]).
Proof.
  intros H Hn. apply (Update_fetch_frame s version w r w1 H). by apply apart_child.
Qed.

Lemma previous_not_versions_name n : is_previous n = true -> n <> "versions".
Proof. intros H ->. done. Qed.





(** ** Rollback, up to the verification *)

Section rollback_stages.
Variable s : Supervisor.

Definition tempLinkNano (now : time.Instant) : path :=
  filepath.Join (dataDir s) ("current.tmp." +:+ fmt.d (time.UnixNano now)).

(** What Rollback does once the newest backup link is resolved and its binary
    verified. *)
Definition Rollback_install (latestBackup target : path) : M unit :=
  now ← time_Now;
  wrapf "failed to create temporary symlink" (os.Symlink target (tempLinkNano now));;
  r ← attempt (os.Rename (tempLinkNano now) (currentLink s));
  match r with
  | Err e =>
      attempt (os.Remove (tempLinkNano now));;
      raise (Wrapf "failed to swap symlink" e)
  | Ok _ =>
      wrapf "failed to update bin symlink" (updateBinSymlink s);;
      r ← attempt (os.Remove latestBackup);
      match r with
      | Err _ => slog.Warn "failed to remove backup symlink"
      | Ok _ => mret tt
      end;;
      wrapf "failed to send termination signal" syscall_Kill_self
  end.

Lemma Rollback_run w :
  Rollback s w =
  match vfs.ReadDir (fs w) (dataDir s) with
  | inl e => (Err (Wrapf "failed to find backup symlinks" (SysErr e)), w)
  | inr entries =>
      match last (links_of s entries) with
      | None => (Err (Errorf "no backup symlinks found, cannot rollback"), w)
      | Some latestBackup =>
          match vfs.Readlink (fs w) latestBackup with
          | inl e => (Err (Wrapf "failed to read backup symlink" (SysErr e)), w)
          | inr target =>
              match verify_outcome (fs w)
                      (filepath.Join target (config.BinaryName (config s))) with
              | Err e => (Err (Wrapf "backup version binary verification failed" e), w)
              | Ok _ => Rollback_install latestBackup target w
              end
          end
      end
  end.
Proof.
  unfold Rollback. unfold mbind at 1. unfold M_bind at 1. unfold wrapf at 1.
  rewrite getBackupSymlinks_run.
  destruct (vfs.ReadDir (fs w) (dataDir s)) as [e|l]; [done|].
  destruct (last (links_of s l)) as [latest|]; [|done].
  unfold mbind at 1. unfold M_bind at 1. unfold wrapf at 1, os.Readlink, read_fs.
  destruct (vfs.Readlink (fs w) latest) as [e|target]; [done|].
  unfold mbind at 1. unfold M_bind at 1. unfold wrapf at 1.
  rewrite verifyBinary_outcome.
  destruct (verify_outcome (fs w) _) as [[]|e]; [|done].
  reflexivity.
Qed.

End rollback_stages.

(** The supervisor's two trees do not overlap: neither the data directory
    nor the path of the binary lies inside the other. *)
Definition layout_ok (s : Supervisor) : Prop :=
  vfs_facts.apart (dataDir s) (binPath s).

Lemma layout_binPath_apart s version :
  layout_ok s -> vfs_facts.apart (binPath s) (versionDir s version).
Proof.
  intros [H1 H2]. assert (dataDir s `prefix_of` versionDir s version) as Hd.
  { unfold versionDir, filepath.Join. rewrite <-(assoc_L (++)). by eexists. }
  split.
  - intros Hb. destruct (prefix_weak_total _ _ _ Hb Hd); done.
  - intros Hv. apply H1. by etrans.
Qed.

(** ** Concrete installations *)

(** The same world under a system that refuses the changes [r]. *)
Definition refusing (w : World) (r : change_kind -> path -> option errno) : World :=
  mkSystem (fs w) (registry w) (clock w) (ticks w) (log w) (sigterm w) r.

Module fixture.

Definition elf_binary : list Byte.byte := ELF ++ [Byte.x02; Byte.x01; Byte.x01].

(** Every tag but 9.9.9 carries a runnable binary and a text file; 9.9.9
    carries an empty binary. *)
Definition artifacts (tag : string) : option Artifact :=
  if String.eqb tag "9.9.9" then Some (mkArtifact [("app", (420, []))] true)
  else Some (mkArtifact [("app", (420, elf_binary)); ("README", (420, []))] true).

Definition registry : Registry :=
  mkRegistry (Some ["1.2.3"; "1.2.4"; "1.2.5"; "9.9.9"; "latest"]) artifacts.

Definition data : path := ["usr"; "local"; "lib"; "app"].
Definition version_dir (v : string) : path := data ++ ["versions"; v].

Definition base_dirs : list (path * node) :=
  [ (["usr"], Dir); (["usr"; "local"], Dir);
    (["usr"; "local"; "bin"], Dir); (["usr"; "local"; "lib"], Dir) ].

Definition world (f : FS) : World := mkWorld f registry epoch 0 [] 0.

(** Nothing installed yet. *)
Definition fresh : World := world (list_to_map base_dirs).

(** A binary installed by hand, not by the supervisor. *)
Definition legacy : World :=
  world (list_to_map (base_dirs ++ [(["usr"; "local"; "bin"; "app"], File 493 elf_binary)])).


(** Version 1.2.3 installed over 1.2.2, whose backup link carries the
    timestamp the clock shows next. *)
Definition same_second : World :=
  world (list_to_map (base_dirs ++
    [ (data, Dir); (data ++ ["versions"], Dir);
      (version_dir "1.2.2", Dir); (version_dir "1.2.2" ++ ["app"], File 493 elf_binary);
      (version_dir "1.2.3", Dir); (version_dir "1.2.3" ++ ["app"], File 493 elf_binary);
      (data ++ ["current"], Symlink (version_dir "1.2.3"));
      (data ++ ["previous-20240101-000000"], Symlink (version_dir "1.2.2"));
      (["usr"; "local"; "bin"; "app"], Symlink (data ++ ["current"; "app"])) ])).

(** Versions 1.2.2 and then 1.2.3 installed, with the backup link of the
    first update. *)
Definition installed : World :=
  world (list_to_map (base_dirs ++
    [ (data, Dir); (data ++ ["versions"], Dir);
      (version_dir "1.2.2", Dir); (version_dir "1.2.2" ++ ["app"], File 493 elf_binary);
      (version_dir "1.2.3", Dir); (version_dir "1.2.3" ++ ["app"], File 493 elf_binary);
      (data ++ ["current"], Symlink (version_dir "1.2.3"));
      (data ++ ["previous-20231224-180000"], Symlink (version_dir "1.2.2"));
      (["usr"; "local"; "bin"; "app"], Symlink (data ++ ["current"; "app"])) ])).

(** The current link may not be replaced. *)
Definition current_sealed (c : change_kind) (p : path) : option errno :=
  match c with
  | Renaming => if decide (p = data ++ ["current"]) then Some EPERM else None
  | _ => None
  end.

(** Nor may anything be removed. *)
Definition nothing_removed (c : change_kind) (p : path) : option errno :=
  match c with
  | Removing => Some EPERM
  | _ => current_sealed c p
  end.

(** A temporary link of an earlier run is left under the name that the
    clock's second reading gives. *)
Definition stale_temp : World :=
  world (<[data ++ ["current.tmp.1704067201"] := Symlink (version_dir "1.2.2")]>
           (fs installed)).

Definition run {A} (m : M A) (w : World) : World := (m w).2.

Lemma run_pair {A} (m : M A) (w : World) (r : result A) :
  (m w).1 = r -> m w = (r, (m w).2).
Proof. destruct (m w) as [r0 w0]. simpl. by intros ->. Defined.

End fixture.



(** The runs behind the amended claim. With the rename refused, the old backup
    link stays, the new one appears and the temporary link is removed; when
    the removal is refused as well, the temporary link stays behind. A stale
    temporary link under the name of this second stops Update before the
    rename. *)
Example Update_swap_refused :
  let v := refusing fixture.installed fixture.current_sealed in
  let v' := (Update app_supervisor "1.2.4" v).2 in
  backup_links app_supervisor (fs v)
    = [fixture.data ++ ["previous-20231224-180000"]]
  /\ backup_links app_supervisor (fs v')
     = [fixture.data ++ ["previous-20231224-180000"];
        fixture.data ++ ["previous-20240101-000000"]]
  /\ fs v' !! (fixture.data ++ ["current.tmp.1704067201"]) = None.
Proof. vm_compute. repeat split; reflexivity. Qed.

Example Update_swap_refused_temp_left :
  let v := refusing fixture.installed fixture.nothing_removed in
  let v' := (Update app_supervisor "1.2.4" v).2 in
  (Update app_supervisor "1.2.4" v).1
    = Err (Wrapf "failed to swap symlink" (SysErr EPERM))
  /\ fs v' !! (fixture.data ++ ["current.tmp.1704067201"])
     = Some (Symlink (fixture.version_dir "1.2.4"))
  /\ vfs_facts.link_target (fs v') (currentLink app_supervisor)
     = Some (fixture.version_dir "1.2.3").
Proof. vm_compute. repeat split; reflexivity. Qed.

Example Update_stale_temp :
  let w' := (Update app_supervisor "1.2.4" fixture.stale_temp).2 in
  (Update app_supervisor "1.2.4" fixture.stale_temp).1
    = Err (Wrapf "failed to create temporary symlink" (SysErr EEXIST))
  /\ backup_links app_supervisor (fs w')
     = [fixture.data ++ ["previous-20231224-180000"];
        fixture.data ++ ["previous-20240101-000000"]]
  /\ vfs_facts.link_target (fs w') (currentLink app_supervisor)
     = Some (fixture.version_dir "1.2.3").
Proof. vm_compute. repeat split; reflexivity. Qed.

(** ** Further properties of the supervisor code *)

(** verifyBinary reads and never writes; it accepts a path exactly when the
    path resolves to a regular file that is not empty, has an execute bit and
    starts with the four bytes of the ELF magic. *)
Theorem verifyBinary_accepts_iff (p : path) (w : World) :
  (verifyBinary p w).2 = w
  /\ ((verifyBinary p w).1 = Ok tt <->
      exists m d, vfs.Stat (fs w) p = inr (File m d) /\ (0 < length d)%nat
             /\ Z.land m 73 <> 0 /\ take 4 d = ELF).
Proof.
  rewrite verifyBinary_outcome. split; [done|]. simpl. apply verify_outcome_Ok.
Qed.

(** For a path that resolves to a regular file, or to nothing, the error
    verifyBinary returns names the first check that fails: a path that
    cannot be resolved is not found; then an empty file is reported as empty
    whatever its mode; then a file without execute bit is reported as not
    executable whatever its content; only then is the header read, where a
    file of fewer than four bytes fails, and last the magic is compared. *)
Theorem verifyBinary_first_failure (p : path) (w : World) :
  (forall e, vfs.Stat (fs w) p = inl e ->
     (verifyBinary p w).1 = Err (Wrapf "binary not found" (SysErr e)))
  /\ (forall m, vfs.Stat (fs w) p = inr (File m []) ->
     (verifyBinary p w).1 = Err (Errorf "binary is empty"))
  /\ (forall m d, vfs.Stat (fs w) p = inr (File m d) -> d <> [] -> Z.land m 73 = 0 ->
     (verifyBinary p w).1 = Err (Errorf "binary is not executable"))
  /\ (forall m d, vfs.Stat (fs w) p = inr (File m d) -> d <> [] -> Z.land m 73 <> 0 ->
     (length d < 4)%nat ->
     (verifyBinary p w).1 = Err (Wrapf "failed to read binary header" (SysErr ErrUnexpectedEOF)))
  /\ (forall m d, vfs.Stat (fs w) p = inr (File m d) -> Z.land m 73 <> 0 ->
     (4 <= length d)%nat -> take 4 d <> ELF ->
     (verifyBinary p w).1 = Err (Errorf "binary is not a valid ELF file")).
Proof.
  rewrite verifyBinary_outcome. unfold verify_outcome. simpl.
  repeat split.
  - by intros e ->.
  - by intros m ->.
  - intros m d -> Hd Hm. cbn [vfs.Size vfs.Mode].
    replace (Z.of_nat (length d) =? 0) with false
      by (symmetry; apply Z.eqb_neq; destruct d; [done|simpl; lia]).
    by rewrite Hm.
  - intros m d -> Hd Hm Hlen. cbn [vfs.Size vfs.Mode]. rewrite ReadFull_File.
    replace (Z.of_nat (length d) =? 0) with false
      by (symmetry; apply Z.eqb_neq; destruct d; [done|simpl; lia]).
    replace (Z.land m 73 =? 0) with false by (symmetry; by apply Z.eqb_neq).
    replace (4 <=? length d)%nat with false by (symmetry; apply Nat.leb_gt; lia).
    by destruct d.
  - intros m d -> Hm Hlen Hmagic. cbn [vfs.Size vfs.Mode]. rewrite ReadFull_File.
    replace (Z.of_nat (length d) =? 0) with false by (symmetry; apply Z.eqb_neq; lia).
    replace (Z.land m 73 =? 0) with false by (symmetry; by apply Z.eqb_neq).
    replace (4 <=? length d)%nat with true by (symmetry; apply Nat.leb_le; lia).
    by rewrite bool_decide_eq_false_2.
Qed.

Ltac in_list := solve [repeat first [apply list_elem_of_here | apply list_elem_of_further]].

(** When the binary of the newest backup does not verify, or there is no
    backup link to take, or the data directory cannot be read, Rollback
    returns an error and has changed nothing at all: no file, no link, no
    log line, no signal. *)
Theorem Rollback_refusal_changes_nothing (s : Supervisor) (w w' : World) (e : error) :
  Rollback s w = (Err e, w') ->
  site e ∈ [ "failed to find backup symlinks";
             "no backup symlinks found, cannot rollback";
             "failed to read backup symlink";
             "backup version binary verification failed" ] ->
  w' = w.
Proof.
  rewrite Rollback_run.
  destruct (vfs.ReadDir (fs w) (dataDir s)) as [e0|l]; [by intros [= _ <-]|].
  destruct (last (links_of s l)) as [latest|]; [|by intros [= _ <-]].
  destruct (vfs.Readlink (fs w) latest) as [e0|target]; [by intros [= _ <-]|].
  destruct (verify_outcome (fs w) _) as [[]|e0]; [|by intros [= _ <-]].
  intros H Hsite. exfalso. unfold Rollback_install in H.
  assert (site e ∈ ["failed to create temporary symlink"; "failed to swap symlink";
                    "failed to update bin symlink"; "failed to send termination signal"]) as Hl.
  { apply bind_inv in H as [(e0 & H & _)|(now & w0 & _ & H)];
      [by rewrite time_Now_run in H|].
    apply bind_inv in H as [(e0 & H & [= ->])|([] & w1 & _ & H)].
    { apply wrapf_site in H as ->. in_list. }
    apply bind_inv in H as [(e0 & H & [= ->])|(r & w2 & _ & H)].
    { apply attempt_inv in H as (? & _ & ?). done. }
    destruct r as [[]|e1].
    - apply bind_inv in H as [(e0 & H & [= ->])|([] & w3 & _ & H)].
      { apply wrapf_site in H as ->. in_list. }
      apply bind_inv in H as [(e0 & H & [= ->])|(r & w4 & _ & H)].
      { apply attempt_inv in H as (? & _ & ?). done. }
      apply bind_inv in H as [(e0 & H & [= ->])|([] & w5 & _ & H)].
      { destruct r; by inversion H. }
      apply wrapf_site in H as ->. in_list.
    - apply bind_inv in H as [(e0 & H & [= ->])|(r & w3 & _ & H)].
      { apply attempt_inv in H as (? & _ & ?). done. }
      injection H as <- _. in_list. }
  revert Hsite Hl. generalize (site e). intros m.
  rewrite !elem_of_cons, !elem_of_nil.
  intros [->|[->|[->|[->|[]]]]] [?|[?|[?|[?|[]]]]]; discriminate.
Qed.

Lemma Rollback_refusal_witness :
  (Rollback app_supervisor fixture.fresh).2 = fixture.fresh.
Proof.
  assert ((Rollback app_supervisor fixture.fresh).1
          = Err (Wrapf "failed to find backup symlinks" (SysErr ENOENT))) as H
    by (vm_compute; reflexivity).
  apply fixture.run_pair in H.
  apply (Rollback_refusal_changes_nothing _ _ _ _ H). in_list.
Defined.

Definition empty_binary_world : World :=
  fixture.world (list_to_map [ (["opt"], Dir); (["opt"; "app"], File 420 []) ]).

Lemma verifyBinary_first_failure_witness :
  (verifyBinary ["opt"; "app"] empty_binary_world).1 = Err (Errorf "binary is empty").
Proof.
  apply (proj1 (proj2 (verifyBinary_first_failure ["opt"; "app"] empty_binary_world)) 420).
  vm_compute. reflexivity.
Defined.

(** ** A backup name that is taken *)

(** When the current link is a symbolic link and the name
    [previous-<timestamp>] for the clock's next reading is already taken,
    Update never gets past the backup step: it returns an error of the fetch
    stage or the error [failed to create backup symlink], which carries
    EEXIST when the data directory is a directory of the store. The entry
    under that name keeps its shape, no backup link appears or disappears,
    and the current link keeps its target. *)
Theorem Update_backup_name_taken (s : Supervisor) (version : string)
    (w w' : World) (r : result unit) (t : path) :
  fs w !! currentLink s = Some (Symlink t) ->
  is_Some (fs w !! backupLink s (clock w (ticks w))) ->
  Update s version w = (r, w') ->
  (exists e, r = Err e
        /\ (site e ∈ fetch_sites version
            \/ exists en, e = Wrapf "failed to create backup symlink" (SysErr en)
                     /\ (vfs.is_dir (fs w') (dataDir s) = true -> en = EEXIST)))
  /\ vfs_facts.same_at (fs w) (fs w') (backupLink s (clock w (ticks w)))
  /\ backup_links s (fs w') = backup_links s (fs w)
  /\ vfs_facts.link_target (fs w') (currentLink s) = Some t.
Proof.
  intros Hcur Hbak. rewrite Update_stages. intros H.
  assert (forall w1 r1, Update_fetch s version w = (r1, w1) ->
            vfs_facts.same_at (fs w) (fs w1) (backupLink s (clock w (ticks w)))
            /\ backup_links s (fs w1) = backup_links s (fs w)
            /\ fs w1 !! currentLink s = Some (Symlink t)) as Hfetch.
  { intros w1 r1 Hf. split; [|split].
    - eapply Update_fetch_keeps; [done|]. apply previous_not_versions.
    - apply backup_links_ext. intros n Hn. apply vfs_facts.same_at_link_target.
      eapply Update_fetch_keeps; [done|]. by apply previous_not_versions_name.
    - eapply vfs_facts.same_at_symlink; [|done]. by eapply Update_fetch_keeps. }
  apply bind_inv in H as [(e0 & H & [= ->])|([] & w1 & Hf & H)].
  { destruct (Hfetch _ _ H) as (H1 & H2 & H3). split; [|split; [done|split; [done|]]].
    - exists e0. split; [done|]. left. by eapply Update_fetch_site.
    - unfold vfs_facts.link_target. by rewrite H3. }
  destruct (Hfetch _ _ Hf) as (H1 & H2 & H3).
  pose proof (Update_fetch_env s version w _ w1 Hf) as (_ & Hclock & Hticks & _).
  assert (is_Some (fs w1 !! backupLink s (clock w (ticks w)))) as [x Hx]
    by (by apply (vfs_facts.same_at_is_Some (fs w) (fs w1))).
  apply bind_inv in H as [(e0 & H & [= ->])|([] & w2 & Hb & H)].
  - rewrite Update_backup_run, H3, Hclock, Hticks in H. cbv zeta in H.
    destruct (vfs_facts.Symlink_exists (fs w1) t _ x Hx) as (en & Hen & Heex).
    rewrite Hen in H. cbn [allowed] in H. injection H as <- <-. cbn [fs tick].
    split; [|split; [done|split; [done|]]].
    + eexists. split; [done|]. right. exists en. split; [done|].
      unfold backupLink in Heex. rewrite Dir_Join in Heex. exact Heex.
    + unfold vfs_facts.link_target. by rewrite H3.
  - exfalso. rewrite Update_backup_run, H3, Hclock, Hticks in Hb. cbv zeta in Hb.
    destruct (vfs_facts.Symlink_exists (fs w1) t _ x Hx) as (en & Hen & _).
    rewrite Hen in Hb. done.
Qed.

Lemma Update_backup_name_taken_witness :
  let w := fixture.same_second in
  let w' := (Update app_supervisor "1.2.4" w).2 in
  backup_links app_supervisor (fs w') = backup_links app_supervisor (fs w)
  /\ vfs_facts.link_target (fs w') (currentLink app_supervisor)
     = Some (fixture.version_dir "1.2.3").
Proof.
  intros w w'.
  assert (fs w !! currentLink app_supervisor
          = Some (Symlink (fixture.version_dir "1.2.3"))) as Hcur
    by (vm_compute; reflexivity).
  assert (is_Some (fs w !! backupLink app_supervisor (clock w (ticks w)))) as Hbak
    by (exists (Symlink (fixture.version_dir "1.2.2")); vm_compute; reflexivity).
  pose proof (fixture.run_pair (Update app_supervisor "1.2.4") w _ eq_refl) as H.
  fold w' in H. clearbody w' w.
  destruct (Update_backup_name_taken _ _ _ _ _ _ Hcur Hbak H) as (_ & _ & H2 & H3).
  exact (conj H2 H3).
Defined.

(** The run itself: in that installation Update to 1.2.4 fails on the taken
    name with EEXIST. *)
Example Update_same_second_fails :
  (Update app_supervisor "1.2.4" fixture.same_second).1
  = Err (Wrapf "failed to create backup symlink" (SysErr EEXIST)).
Proof. vm_compute. reflexivity. Qed.

(** ** The backup links and their rotation *)

Lemma links_in_NoDup s f k :
  NoDup (links_of s (merge_sort vfs.name_le (vfs.children f k))).
Proof.
  unfold links_of, sort_Strings. rewrite merge_sort_Permutation.
  apply NoDup_omap_inj.
  - rewrite merge_sort_Permutation. apply vfs_facts.children_NoDup.
  - intros [n x] [n' x'] z Hin Hin'. rewrite merge_sort_Permutation in Hin, Hin'.
    apply vfs_facts.elem_of_children in Hin, Hin'.
    unfold select_backup. simpl.
    destruct (vfs.IsSymlink x && is_previous n); [|done].
    destruct (vfs.IsSymlink x' && is_previous n'); [|done].
    intros [= <-] [= Heq]. apply app_inv_head in Heq. simplify_eq. done.
Qed.

(** getBackupSymlinks only reads, and it follows symbolic links to the data
    directory. When the path of the data directory cannot be resolved it
    returns that error, and when it resolves to something that is no
    directory it returns ENOTDIR. When it resolves to the directory [k], the
    result holds, in strictly increasing order of their texts and without
    repetition, one path [<dataDir>/<name>] for each entry of [k] that is a
    symbolic link and whose name is longer than nine bytes and starts with
    [previous-], and nothing else. *)
Theorem getBackupSymlinks_lists_the_links (s : Supervisor) (w : World) :
  (getBackupSymlinks s w).2 = w
  /\ (forall e, vfs.Stat (fs w) (dataDir s) = inl e ->
        (getBackupSymlinks s w).1 = Err (SysErr e))
  /\ (forall n, vfs.Stat (fs w) (dataDir s) = inr n -> n <> Dir ->
        (getBackupSymlinks s w).1 = Err (SysErr ENOTDIR))
  /\ (forall k, vfs.resolve vfs.max_hops (fs w) (dataDir s) = inr (k, Dir) ->
      exists l, (getBackupSymlinks s w).1 = Ok l
           /\ StronglySorted path_le l /\ NoDup l
           /\ forall p, p ∈ l <->
                exists n t, p = filepath.Join (dataDir s) n
                       /\ (9 < String.length n)%nat
                       /\ String.substring 0 9 n = "previous-"
                       /\ fs w !! (k ++ [n]) = Some (Symlink t)).
Proof.
  rewrite getBackupSymlinks_run. split; [done|]. unfold vfs.ReadDir, vfs.Stat.
  split; [|split].
  - intros e He. by destruct (vfs.resolve _ _ _) as [e'|[k n]]; simplify_eq.
  - intros n Hn Hne. destruct (vfs.resolve _ _ _) as [e'|[k n']]; simplify_eq.
    by destruct n.
  - intros k ->. eexists. split; [done|].
    split; [apply links_of_sorted|]. split; [apply links_in_NoDup|].
    intros p. rewrite elem_of_links_in. unfold is_previous, filepath.Join.
    split.
    + intros (n & t & -> & H & Hf). exists n, t.
      apply andb_true_iff in H as [H1 H2]. apply Nat.ltb_lt in H1.
      apply String.eqb_eq in H2. done.
    + intros (n & t & -> & H1 & H2 & Hf). exists n, t.
      repeat split; try done.
      apply andb_true_iff. split; [by apply Nat.ltb_lt|by apply String.eqb_eq].
Qed.

(** An installation whose data directory is a symbolic link to a directory
    elsewhere, which holds three backup links, a regular file and a
    directory whose names start with [previous-], and the current link. *)
Definition linked_data : World :=
  fixture.world (list_to_map (fixture.base_dirs ++
    [ (["srv"], Dir); (["srv"; "app"], Dir);
      (fixture.data, Symlink ["srv"; "app"]);
      (["srv"; "app"; "versions"], Dir);
      (["srv"; "app"; "current"], Symlink (fixture.version_dir "1.2.5"));
      (["srv"; "app"; "previous-20240102-000000"], Symlink (fixture.version_dir "1.2.2"));
      (["srv"; "app"; "previous-20240101-000000"], Symlink (fixture.version_dir "1.2.1"));
      (["srv"; "app"; "previous-20240103-000000"], Symlink (fixture.version_dir "1.2.3"));
      (["srv"; "app"; "previous-notes"], File 420 []);
      (["srv"; "app"; "previous-backup"], Dir) ])).

Lemma getBackupSymlinks_lists_the_links_witness :
  exists l, (getBackupSymlinks app_supervisor linked_data).1 = Ok l
    /\ StronglySorted path_le l /\ NoDup l
    /\ forall p, p ∈ l <->
         exists n t, p = filepath.Join (dataDir app_supervisor) n
                /\ (9 < String.length n)%nat
                /\ String.substring 0 9 n = "previous-"
                /\ fs linked_data !! (["srv"; "app"] ++ [n]) = Some (Symlink t).
Proof.
  apply (proj2 (proj2 (proj2
           (getBackupSymlinks_lists_the_links app_supervisor linked_data))) ["srv"; "app"]).
  vm_compute. reflexivity.
Defined.

(** On that store the three links are listed under the path of the data
    directory as it is configured; a data directory that is a regular file
    gives ENOTDIR. *)
Example getBackupSymlinks_linked_data :
  (getBackupSymlinks app_supervisor linked_data).1
  = Ok [ fixture.data ++ ["previous-20240101-000000"];
         fixture.data ++ ["previous-20240102-000000"];
         fixture.data ++ ["previous-20240103-000000"] ]
  /\ (getBackupSymlinks app_supervisor
        (fixture.world (list_to_map (fixture.base_dirs ++ [(fixture.data, File 420 [])])))).1
     = Err (SysErr ENOTDIR).
Proof. split; vm_compute; reflexivity. Qed.

(** *** The rotation *)

Definition remove_warning : level * string := (WARN, "failed to remove old backup").

(** The links among [ps] that the system does not let go. *)
Definition kept_back (w : World) (ps : list path) : list path :=
  filter (fun p => is_Some (refused w Removing p)) ps.

Lemma StronglySorted_filter {A} (R : relation A) (P : A -> Prop)
    `{!forall x, Decision (P x)} (l : list A) :
  StronglySorted R l -> StronglySorted R (filter P l).
Proof.
  induction 1 as [|x l Hs IH Hx]; [constructor|].
  rewrite filter_cons. destruct (decide (P x)); [|done].
  constructor; [done|]. apply Forall_forall. intros y [_ Hy]%list_elem_of_filter.
  by eapply Forall_forall in Hx.
Qed.

(** The loop of cleanupOldBackups over links that exist: each is removed, or
    kept with a warning when the system refuses. *)
Lemma remove_links_run (ps : list path) (w : World) :
  NoDup ps ->
  (forall p, p ∈ ps -> exists t, fs w !! p = Some (Symlink t)) ->
  exists w',
    for_each ps (fun backup =>
      r ← attempt (os.Remove backup);
      match r with
      | Err _ => slog.Warn "failed to remove old backup"
      | Ok _ => mret tt
      end) w = (Ok tt, w')
    /\ (registry w' = registry w /\ clock w' = clock w /\ ticks w' = ticks w
        /\ sigterm w' = sigterm w /\ refused w' = refused w)
    /\ log w' = log w ++ replicate (length (kept_back w ps)) remove_warning
    /\ forall k, fs w' !! k =
                 if decide (k ∈ ps /\ refused w Removing k = None) then None
                 else fs w !! k.
Proof.
  revert w. induction ps as [|p ps IH]; intros w Hnd Hl.
  - exists w. split; [done|]. split; [done|]. split; [by rewrite app_nil_r|].
    intros k. destruct (decide _) as [[Hk _]|_]; [by apply elem_of_nil in Hk|done].
  - apply NoDup_cons in Hnd as [Hp Hnd].
    destruct (Hl p) as [t Ht]; [by left|].
    cbn [for_each]. unfold mbind at 1. unfold M_bind at 1.
    unfold mbind at 1. unfold M_bind at 1.
    unfold attempt, os.Remove, change. rewrite (vfs_facts.Remove_symlink _ _ t Ht).
    unfold allowed, refusal, kept_back. rewrite filter_cons.
    destruct (refused w Removing p) as [e|] eqn:Er.
    + (* refused: the link stays and a warning is logged *)
      set (w1 := (slog.Warn "failed to remove old backup" w).2).
      destruct (IH w1 Hnd) as (w' & Hrun & Henv & Hlog & Hfs).
      { intros q Hq. by apply Hl; right. }
      exists w'. split; [exact Hrun|]. split; [exact Henv|]. split.
      * rewrite Hlog. rewrite decide_True by by eexists. cbn [length replicate].
        unfold w1, slog.Warn, slog.emit. cbn [log snd]. unfold kept_back.
        by rewrite <-(assoc_L (++)).
      * intros k. rewrite Hfs. unfold w1, slog.Warn, slog.emit. cbn [fs refused snd].
        destruct (decide (k ∈ ps /\ refused w Removing k = None)) as [[Hk Hr]|Hn].
        -- rewrite decide_True; [done|]. split; [by right|done].
        -- rewrite decide_False; [done|]. intros [[->|Hk]%elem_of_cons Hr]; [congruence|].
           by apply Hn.
    + (* removed *)
      destruct (IH (set_fs w (delete p (fs w))) Hnd) as (w' & Hrun & Henv & Hlog & Hfs).
      { intros q Hq. destruct (Hl q) as [t' Ht']; [by right|]. exists t'.
        simpl. rewrite lookup_delete_ne; [done|]. by intros ->. }
      exists w'. split; [exact Hrun|]. split; [exact Henv|]. split.
      * rewrite Hlog. rewrite decide_False by (by intros [? ?]). done.
      * intros k. rewrite Hfs. cbn [fs refused set_fs].
        destruct (decide (k = p)) as [->|Hne].
        -- rewrite lookup_delete_eq.
           destruct (decide (p ∈ p :: ps /\ _)) as [_|Hn];
             [|destruct Hn; split; [by left|done]].
           by destruct (decide _).
        -- rewrite lookup_delete_ne by done.
           destruct (decide (k ∈ ps /\ refused w Removing k = None)) as [[Hk Hr]|Hn].
           ++ rewrite decide_True; [done|]. split; [by right|done].
           ++ rewrite decide_False; [done|]. intros [[->|Hk]%elem_of_cons Hr]; [done|].
              by apply Hn.
Qed.

(** cleanupOldBackups fails only with the error of the listing, and then
    changes nothing. When the data directory is a directory under its own
    name, it returns nil; with [l] the sorted list of backup links before and
    [old] all of [l] but its last [keep] elements, each link of [old] is
    removed, or, where the system refuses the removal, kept, with one warning
    logged for each such link. The backup links afterwards are those kept
    back followed by the last [keep] of [l]; every entry that is not in
    [old] is untouched. *)
Theorem cleanupOldBackups_keeps_newest (s : Supervisor) (keep : nat) (w : World) :
  let l := backup_links s (fs w) in
  let old := take (length l - keep) l in
  (forall e, (getBackupSymlinks s w).1 = Err e -> cleanupOldBackups s keep w = (Err e, w))
  /\ (real_dir (fs w) (dataDir s) ->
      exists w', cleanupOldBackups s keep w = (Ok tt, w')
        /\ log w' = log w ++ replicate (length (kept_back w old)) remove_warning
        /\ sigterm w' = sigterm w
        /\ backup_links s (fs w') = kept_back w old ++ drop (length l - keep) l
        /\ (kept_back w old = [] -> (length (backup_links s (fs w')) <= keep)%nat)
        /\ (forall k, k ∈ old -> refused w Removing k = None -> fs w' !! k = None)
        /\ (forall k, k ∉ old -> fs w' !! k = fs w !! k)).
Proof.
  intros l old. unfold cleanupOldBackups. split.
  - intros e He. unfold mbind, M_bind.
    destruct (getBackupSymlinks s w) as [[l0|e0] w0] eqn:E; [done|].
    pose proof (f_equal snd E) as Hw. rewrite getBackupSymlinks_run in Hw. simpl in *.
    by simplify_eq.
  - intros Hd. unfold mbind at 1. unfold M_bind at 1.
    rewrite (getBackupSymlinks_real _ _ Hd). fold l.
    assert (NoDup l) as Hnd by apply backup_links_NoDup.
    pose proof (backup_links_sorted s (fs w)) as Hs. fold l in Hs.
    rewrite <-(take_drop (length l - keep) l) in Hnd, Hs. fold old in Hnd, Hs.
    apply NoDup_app in Hnd as (Hnd1 & Hdisj & Hnd2).
    apply StronglySorted_app in Hs as (Hcross & Hs1 & Hs2).
    destruct (keep <? length l)%nat eqn:Hk.
    + apply Nat.ltb_lt in Hk. fold old.
      destruct (remove_links_run old w Hnd1) as (w' & Hrun & Henv & Hlog & Hfs).
      { intros p Hp. assert (p ∈ l) as Hin by (by eapply subseteq_take).
        apply elem_of_backup_links in Hin as (n & t & -> & _ & Hf). by exists t. }
      exists w'. split; [exact Hrun|]. split; [exact Hlog|].
      split; [by destruct Henv as (_ & _ & _ & ? & _)|].
      assert (backup_links s (fs w') = kept_back w old ++ drop (length l - keep) l) as Hb.
      { symmetry. apply backup_links_unique.
        - apply StronglySorted_app_2; [|by apply StronglySorted_filter|done].
          intros x1 x2 [_ Hx1]%list_elem_of_filter Hx2. by apply Hcross.
        - apply NoDup_app. split; [by apply NoDup_filter|]. split; [|done].
          intros x [_ Hx]%list_elem_of_filter. by apply Hdisj.
        - intros p. rewrite elem_of_app, elem_of_backup_links. unfold kept_back.
          rewrite list_elem_of_filter. split.
          + intros Hp. assert (p ∈ l) as Hin.
            { destruct Hp as [[_ Hp]|Hp]; [by eapply subseteq_take|by eapply subseteq_drop]. }
            apply elem_of_backup_links in Hin as (n & t & -> & Hn & Hf).
            exists n, t. repeat split; try done. rewrite Hfs.
            rewrite decide_False; [done|]. intros [Hold Hfree].
            destruct Hp as [[[e He] _]|Hp]; [congruence|]. by apply (Hdisj _ Hold).
          + intros (n & t & -> & Hn & Hf). rewrite Hfs in Hf.
            destruct (decide _) as [|Hno]; [done|].
            assert (dataDir s ++ [n] ∈ l) as Hin
              by (apply elem_of_backup_links; by exists n, t).
            rewrite <-(take_drop (length l - keep) l) in Hin. fold old in Hin.
            apply elem_of_app in Hin as [Hin|Hin]; [|by right].
            left. split; [|done].
            destruct (refused w Removing (dataDir s ++ [n])) eqn:Er; [by eexists|].
            by destruct Hno. }
      split; [done|]. split; [|split].
      * intros Hnone. rewrite Hb, Hnone. cbn [app]. rewrite length_drop. lia.
      * intros k Hk1 Hk2. rewrite Hfs. by rewrite decide_True.
      * intros k Hk'. rewrite Hfs. rewrite decide_False; [done|]. by intros [? _].
    + apply Nat.ltb_ge in Hk. exists w.
      assert (old = []) as Hold.
      { unfold old. replace (length l - keep)%nat with 0%nat by lia. done. }
      split; [done|]. rewrite Hold. cbn [kept_back filter length replicate].
      rewrite app_nil_r. split; [done|]. split; [done|].
      replace (length l - keep)%nat with 0%nat by lia. rewrite drop_0.
      split; [done|]. split; [intros _; fold l; lia|].
      split; [intros k Hk'; by apply elem_of_nil in Hk'|done].
Qed.

(** Version 1.2.5 installed after four earlier ones, with a backup link for
    each of them and a regular file whose name also starts with [previous-]. *)
Definition four_backups : World :=
  fixture.world (list_to_map (fixture.base_dirs ++
    [ (fixture.data, Dir); (fixture.data ++ ["versions"], Dir);
      (fixture.version_dir "1.2.5", Dir);
      (fixture.version_dir "1.2.5" ++ ["app"], File 493 fixture.elf_binary);
      (fixture.data ++ ["current"], Symlink (fixture.version_dir "1.2.5"));
      (fixture.data ++ ["previous-20240104-000000"], Symlink (fixture.version_dir "1.2.4"));
      (fixture.data ++ ["previous-20240102-000000"], Symlink (fixture.version_dir "1.2.2"));
      (fixture.data ++ ["previous-20240101-000000"], Symlink (fixture.version_dir "1.2.1"));
      (fixture.data ++ ["previous-20240103-000000"], Symlink (fixture.version_dir "1.2.3"));
      (fixture.data ++ ["previous-notes"], File 420 []) ])).

(** The oldest backup link may not be removed. *)
Definition oldest_sealed (c : change_kind) (p : path) : option errno :=
  match c with
  | Removing =>
      if decide (p = fixture.data ++ ["previous-20240101-000000"]) then Some EPERM else None
  | _ => None
  end.

Definition four_backups_sealed : World := refusing four_backups oldest_sealed.

Lemma cleanupOldBackups_keeps_newest_witness :
  exists w', cleanupOldBackups app_supervisor 2 four_backups_sealed = (Ok tt, w')
    /\ log w' = log four_backups_sealed
                ++ replicate
                     (length (kept_back four_backups_sealed
                                (take (length (backup_links app_supervisor
                                                 (fs four_backups_sealed)) - 2)
                                      (backup_links app_supervisor (fs four_backups_sealed)))))
                     remove_warning
    /\ sigterm w' = sigterm four_backups_sealed
    /\ backup_links app_supervisor (fs w')
       = kept_back four_backups_sealed
           (take (length (backup_links app_supervisor (fs four_backups_sealed)) - 2)
                 (backup_links app_supervisor (fs four_backups_sealed)))
         ++ drop (length (backup_links app_supervisor (fs four_backups_sealed)) - 2)
              (backup_links app_supervisor (fs four_backups_sealed))
    /\ (kept_back four_backups_sealed
          (take (length (backup_links app_supervisor (fs four_backups_sealed)) - 2)
                (backup_links app_supervisor (fs four_backups_sealed))) = [] ->
        (length (backup_links app_supervisor (fs w')) <= 2)%nat)
    /\ (forall k,
          k ∈ take (length (backup_links app_supervisor (fs four_backups_sealed)) - 2)
                (backup_links app_supervisor (fs four_backups_sealed)) ->
          refused four_backups_sealed Removing k = None -> fs w' !! k = None)
    /\ (forall k,
          k ∉ take (length (backup_links app_supervisor (fs four_backups_sealed)) - 2)
                (backup_links app_supervisor (fs four_backups_sealed)) ->
          fs w' !! k = fs four_backups_sealed !! k).
Proof.
  apply (proj2 (cleanupOldBackups_keeps_newest app_supervisor 2 four_backups_sealed)).
  vm_compute. reflexivity.
Defined.

(** On that store a rotation down to two links removes the second oldest,
    keeps the oldest with a warning, and leaves the two newest; where the
    system refuses nothing, exactly the three newest of four are left by the
    rotation that Update asks for, and no line is logged. *)
Example cleanupOldBackups_four_backups :
  let w' := (cleanupOldBackups app_supervisor 2 four_backups_sealed).2 in
  let v' := (cleanupOldBackups app_supervisor 3 four_backups).2 in
  backup_links app_supervisor (fs w')
  = [ fixture.data ++ ["previous-20240101-000000"];
      fixture.data ++ ["previous-20240103-000000"];
      fixture.data ++ ["previous-20240104-000000"] ]
  /\ log w' = [remove_warning]
  /\ backup_links app_supervisor (fs v')
     = [ fixture.data ++ ["previous-20240102-000000"];
         fixture.data ++ ["previous-20240103-000000"];
         fixture.data ++ ["previous-20240104-000000"] ]
  /\ log v' = [].
Proof. vm_compute. repeat split; reflexivity. Qed.

(** ** The termination signal *)

(** Steps that send no signal and leave the registry and the clock alone. *)
Definition unsignalled (w w' : World) : Prop :=
  sigterm w' = sigterm w /\ registry w' = registry w /\ clock w' = clock w.

Global Instance unsignalled_refl : Reflexive unsignalled.
Proof. by intros w. Qed.

Global Instance unsignalled_trans : Transitive unsignalled.
Proof. intros w1 w2 w3 (?&?&?) (?&?&?). repeat split; congruence. Qed.




















(** ** History *)

(** The comparison of two times is the lexicographic comparison of their
    fields. *)
Definition fields (t : time.Time) : list Z :=
  [time.year t; time.month t; time.day t; time.hour t; time.minute t;
   time.second t; time.nsec t].

Fixpoint lex (a b : list Z) : comparison :=
  match a, b with
  | [], [] => Eq
  | [], _ :: _ => Lt
  | _ :: _, [] => Gt
  | x :: a, y :: b => match x ?= y with Eq => lex a b | c => c end
  end.

Lemma compare_lex t u : time.compare t u = lex (fields t) (fields u).
Proof.
  unfold time.compare, fields. cbn [lex].
  repeat (destruct (_ ?= _); try reflexivity).
Qed.

Lemma lex_antisym a b : lex b a = CompOpp (lex a b).
Proof.
  revert b. induction a as [|x a IH]; intros [|y b]; simpl; try reflexivity.
  rewrite (Z.compare_antisym x y). destruct (x ?= y); simpl; auto.
Qed.

Lemma lex_le_trans a b c : lex a b <> Gt -> lex b c <> Gt -> lex a c <> Gt.
Proof.
  revert b c. induction a as [|x a IH]; intros [|y b] [|z c]; simpl; try done.
  destruct (Z.compare_spec x y), (Z.compare_spec y z), (Z.compare_spec x z);
    try done; try lia; subst; eauto.
Qed.

Global Instance not_after_total : Total (fun a b : HistoricVersion => ¬ after b a).
Proof.
  intros a b. unfold after, time.After.
  rewrite !compare_lex, (lex_antisym (fields (LastInstalled b))).
  destruct (lex (fields (LastInstalled b)) (fields (LastInstalled a)));
    simpl; [left|left|right]; done.
Qed.

Global Instance not_after_trans : Transitive (fun a b : HistoricVersion => ¬ after b a).
Proof.
  intros a b c. unfold after, time.After. rewrite !compare_lex.
  intros H1 H2 H3.
  apply (lex_le_trans (fields (LastInstalled c)) (fields (LastInstalled b))
           (fields (LastInstalled a))).
  - intros E. apply H2. by rewrite E.
  - intros E. apply H1. by rewrite E.
  - by destruct (lex (fields (LastInstalled c)) (fields (LastInstalled a))).
Qed.

Lemma StronglySorted_weaken {A} (R R' : relation A) (l : list A) :
  (forall a b, R a b -> R' a b) -> StronglySorted R l -> StronglySorted R' l.
Proof.
  intros HR. induction 1 as [|x l Hs IH Hx]; constructor; [done|].
  eapply Forall_impl; [exact Hx|]. intros y. apply HR.
Qed.

(** One turn of the loop, spelled out. *)
Lemma history_entry_Some (f : FS) (p : path) (h : HistoricVersion) :
  history_entry f p = Some h <->
  exists t, f !! p = Some (Symlink t)
    /\ LastInstalled h = parsePreviousTimestamp (filepath.Base p)
    /\ (semver.NewVersion (filepath.Base t) = Some (Version h)
        \/ (semver.NewVersion (filepath.Base t) = None
            /\ filepath.Base t = "legacy"
            /\ semver.NewVersion "0.0.0-legacy" = Some (Version h))).
Proof.
  unfold history_entry, vfs.Readlink. split.
  - destruct (f !! p) as [[| |t]|] eqn:E; try done; [|by destruct p].
    intros H. exists t. split; [done|].
    destruct (semver.NewVersion (filepath.Base t)) as [v|] eqn:Ev.
    + injection H as <-. simpl. split; [done|by left].
    + destruct (String.eqb (filepath.Base t) "legacy") eqn:El; [|done].
      apply String.eqb_eq in El.
      destruct (semver.NewVersion "0.0.0-legacy") as [v|]; [|done].
      injection H as <-. simpl. split; [done|]. right. done.
  - intros (t & -> & Hl & [Hv|(Hn & Hb & Hv)]).
    + rewrite Hv. destruct h as [v l]. simpl in *. by rewrite Hl.
    + rewrite Hn, Hb. rewrite Hv. destruct h as [v l]. simpl in *. by rewrite Hl.
Qed.

(** History returns the empty list when the path of the data directory
    cannot be resolved or resolves to something that is no directory. When the data directory is a directory under its own name,
    History holds one record for each backup link whose target's last
    element parses as a version, or is [legacy] (which is recorded as the
    version 0.0.0-legacy), and none for another link; the time of a record
    is the one parsed from the link's name; and no record is followed by one
    with a later time. *)
Theorem History_newest_first (s : Supervisor) (w : World) :
  (forall e, vfs.Stat (fs w) (dataDir s) = inl e -> History s w = [])
  /\ (forall n, vfs.Stat (fs w) (dataDir s) = inr n -> n <> Dir -> History s w = [])
  /\ (real_dir (fs w) (dataDir s) ->
      History s w ≡ₚ omap (history_entry (fs w)) (backup_links s (fs w))
      /\ StronglySorted
           (fun a b => time.After (LastInstalled b) (LastInstalled a) = false)
           (History s w)
      /\ forall h, h ∈ History s w <->
           exists n t, is_previous n = true
             /\ fs w !! filepath.Join (dataDir s) n = Some (Symlink t)
             /\ LastInstalled h = parsePreviousTimestamp n
             /\ (semver.NewVersion (filepath.Base t) = Some (Version h)
                 \/ (semver.NewVersion (filepath.Base t) = None
                     /\ filepath.Base t = "legacy"
                     /\ semver.NewVersion "0.0.0-legacy" = Some (Version h)))).
Proof.
  unfold History. split; [|split].
  { intros e. rewrite getBackupSymlinks_run. unfold vfs.ReadDir, vfs.Stat.
    by destruct (vfs.resolve _ _ _) as [e'|[k n]]. }
  { intros n. rewrite getBackupSymlinks_run. unfold vfs.ReadDir, vfs.Stat.
    destruct (vfs.resolve _ _ _) as [e'|[k n']]; [done|]. intros [= ->] Hn. by destruct n. }
  intros Hd. rewrite (getBackupSymlinks_real _ _ Hd).
  unfold sort_history. split; [apply merge_sort_Permutation|]. split.
  - eapply StronglySorted_weaken; [|apply StronglySorted_merge_sort; apply _].
    intros a b H. unfold after in H. simpl in H. by destruct (time.After _ _).
  - intros h. rewrite merge_sort_Permutation, list_elem_of_omap. split.
    + intros (p & Hp & Hh). apply elem_of_backup_links in Hp as (n & t & -> & Hn & Hf).
      apply history_entry_Some in Hh as (t' & Hf' & Hl & Hv).
      change (dataDir s ++ [n]) with (filepath.Join (dataDir s) n) in *.
      rewrite Base_Join in Hl. exists n, t'. done.
    + intros (n & t & Hn & Hf & Hl & Hv). exists (filepath.Join (dataDir s) n). split.
      * apply elem_of_backup_links. by exists n, t.
      * apply history_entry_Some. exists t. rewrite Base_Join. done.
Qed.

(** Backup links to a legacy installation, to a version, to a directory that
    is no version, and one whose name carries no timestamp. *)
Definition mixed_history : World :=
  fixture.world (list_to_map (fixture.base_dirs ++
    [ (fixture.data, Dir);
      (fixture.data ++ ["previous-20240101-000000"], Symlink (fixture.version_dir "legacy"));
      (fixture.data ++ ["previous-20240102-000000"], Symlink (fixture.version_dir "1.2.2"));
      (fixture.data ++ ["previous-20240103-000000"], Symlink (fixture.version_dir "nightly"));
      (fixture.data ++ ["previous-old"], Symlink (fixture.version_dir "1.0.0")) ])).

Lemma History_newest_first_witness :
  History app_supervisor mixed_history
    ≡ₚ omap (history_entry (fs mixed_history)) (backup_links app_supervisor (fs mixed_history))
  /\ StronglySorted
       (fun a b => time.After (LastInstalled b) (LastInstalled a) = false)
       (History app_supervisor mixed_history)
  /\ forall h, h ∈ History app_supervisor mixed_history <->
       exists n t, is_previous n = true
         /\ fs mixed_history !! filepath.Join (dataDir app_supervisor) n = Some (Symlink t)
         /\ LastInstalled h = parsePreviousTimestamp n
         /\ (semver.NewVersion (filepath.Base t) = Some (Version h)
             \/ (semver.NewVersion (filepath.Base t) = None
                 /\ filepath.Base t = "legacy"
                 /\ semver.NewVersion "0.0.0-legacy" = Some (Version h))).
Proof.
  apply (proj2 (proj2 (History_newest_first app_supervisor mixed_history))).
  vm_compute. reflexivity.
Defined.

(** Without a data directory History is empty. *)
Example History_fresh : History app_supervisor fixture.fresh = [].
Proof. vm_compute. reflexivity. Qed.

(** On that store the link to [nightly] gives no record, the legacy
    installation is listed as 0.0.0-legacy, and the link without a timestamp
    comes last, with the zero time. *)
Example History_mixed :
  map (fun h => (semver.original (Version h), LastInstalled h))
      (History app_supervisor mixed_history)
  = [ ("1.2.2", time.mkTime 2024 1 2 0 0 0 0);
      ("0.0.0-legacy", time.mkTime 2024 1 1 0 0 0 0);
      ("1.0.0", time.zero) ].
Proof. vm_compute. reflexivity. Qed.


(** ** The bin symlink and the legacy migration, as equations *)

Section bin_link.
Variable s : Supervisor.

Definition currentBinary : path :=
  filepath.Join (filepath.Join (dataDir s) "current") (config.BinaryName (config s)).
Definition legacyVersionDir : path :=
  filepath.Join (filepath.Join (dataDir s) "versions") "legacy".
Definition legacyBinaryPath : path :=
  filepath.Join legacyVersionDir (config.BinaryName (config s)).
Definition tempBinLink (now : time.Instant) : path :=
  filepath.with_suffix (binPath s) (".tmp." +:+ fmt.d (time.UnixNano now)).

(** The world after a clock reading and some log lines. *)
Definition noted (w : World) (f : FS) (readings : nat) (lines : list (level * string)) : World :=
  mkSystem f (registry w) (clock w) (readings + ticks w) (log w ++ lines) (sigterm w)
    (refused w).

Definition migrating : level * string := (INFO, "migrating legacy binary installation").
Definition migrated : level * string := (INFO, "legacy binary migrated successfully").
Definition no_legacy_backup : level * string :=
  (WARN, "failed to create backup symlink for legacy version").

Lemma migrateLegacyBinary_run w :
  migrateLegacyBinary s w =
  match vfs.MkdirAll (fs w) legacyVersionDir with
  | inl e =>
      (Err (Wrapf "failed to create legacy version directory" (SysErr e)),
       noted w (fs w) 0 [migrating])
  | inr f1 =>
      match allowed (refused w) [(Renaming, binPath s); (Renaming, legacyBinaryPath)]
              (vfs.Rename f1 (binPath s) legacyBinaryPath) with
      | inl e =>
          (Err (Wrapf "failed to move legacy binary" (SysErr e)),
           noted w f1 0 [migrating])
      | inr f2 =>
          match allowed (refused w) [(Creating, backupLink s (clock w (ticks w)))]
                  (vfs.Symlink f2 legacyVersionDir (backupLink s (clock w (ticks w)))) with
          | inr f3 => (Ok tt, noted w f3 1 [migrating; migrated])
          | inl _ => (Ok tt, noted w f2 1 [migrating; no_legacy_backup; migrated])
          end
      end
  end.
Proof.
  unfold migrateLegacyBinary, attempt, os.MkdirAll, os.Rename, os.Symlink, write_fs, change,
    wrapf, mbind, M_bind, mret, M_ret, slog.Info, slog.Warn, slog.emit, time_Now, noted,
    migrating, migrated, no_legacy_backup.
  cbn [fs registry clock ticks log sigterm refused set_fs].
  fold legacyVersionDir. fold legacyBinaryPath.
  destruct (vfs.MkdirAll (fs w) legacyVersionDir) as [e|f1]; [done|].
  cbn [fs registry clock ticks log sigterm refused set_fs].
  destruct (allowed _ _ (vfs.Rename f1 (binPath s) legacyBinaryPath)) as [e|f2]; [done|].
  cbn [fs registry clock ticks log sigterm refused set_fs].
  fold (backupLink s (clock w (ticks w))).
  destruct (allowed _ _ (vfs.Symlink f2 legacyVersionDir _)) as [e|f3];
    cbn [fs registry clock ticks log sigterm refused set_fs]; rewrite <-?(assoc_L (++)); done.
Qed.

(** The last two steps of updateBinSymlink. *)
Definition bin_install : M unit :=
  now ← time_Now;
  wrapf "failed to create temp bin symlink" (os.Symlink currentBinary (tempBinLink now));;
  r ← attempt (os.Rename (tempBinLink now) (binPath s));
  match r with
  | Err e =>
      attempt (os.Remove (tempBinLink now));;
      raise (Wrapf "failed to swap bin symlink" e)
  | Ok _ => mret tt
  end.

Lemma bin_install_run w :
  bin_install w =
  let now := clock w (ticks w) in
  let r := refused w in
  match allowed r [(Creating, tempBinLink now)]
          (vfs.Symlink (fs w) currentBinary (tempBinLink now)) with
  | inl e => (Err (Wrapf "failed to create temp bin symlink" (SysErr e)), tick w)
  | inr f1 =>
      match allowed r [(Renaming, tempBinLink now); (Renaming, binPath s)]
              (vfs.Rename f1 (tempBinLink now) (binPath s)) with
      | inr f2 => (Ok tt, set_fs (tick w) f2)
      | inl e =>
          (Err (Wrapf "failed to swap bin symlink" (SysErr e)),
           set_fs (tick w)
             (match allowed r [(Removing, tempBinLink now)]
                      (vfs.Remove f1 (tempBinLink now)) with
              | inr f3 => f3
              | inl _ => f1
              end))
      end
  end.
Proof.
  unfold bin_install, attempt, os.Rename, os.Remove, os.Symlink, change,
    wrapf, raise, mbind, M_bind, mret, M_ret.
  rewrite time_Now_run. change (fs (tick w)) with (fs w).
  change (refused (tick w)) with (refused w). cbv zeta.
  destruct (allowed _ _ (vfs.Symlink (fs w) _ _)) as [e|f1]; [done|].
  cbn [fs set_fs refused].
  destruct (allowed _ _ (vfs.Rename f1 _ _)) as [e|f2]; [|done]. cbn [fs set_fs refused].
  by destruct (allowed _ _ (vfs.Remove f1 _)).
Qed.

Lemma updateBinSymlink_run w :
  updateBinSymlink s w =
  match vfs.Stat (fs w) currentBinary with
  | inl e => (Err (Wrapf "current binary does not exist" (SysErr e)), w)
  | inr _ =>
      match vfs.Lstat (fs w) (binPath s) with
      | inr (Symlink _) | inl _ => bin_install w
      | inr _ =>
          match migrateLegacyBinary s w with
          | (Err e, w1) => (Err (Wrapf "failed to migrate legacy binary" e), w1)
          | (Ok _, w1) => bin_install w1
          end
      end
  end.
Proof.
  unfold updateBinSymlink. fold currentBinary.
  unfold mbind at 1. unfold M_bind at 1. unfold wrapf at 1, os.Stat, read_fs.
  destruct (vfs.Stat (fs w) currentBinary) as [e|info]; [done|].
  unfold mbind at 1. unfold M_bind at 1. unfold attempt at 1, os.Lstat, read_fs.
  destruct (vfs.Lstat (fs w) (binPath s)) as [e|[m d| |t]]; cbn [vfs.IsSymlink negb].
  - reflexivity.
  - unfold mbind at 1. unfold M_bind at 1. unfold wrapf at 1.
    destruct (migrateLegacyBinary s w) as [[[]|e] w1]; reflexivity.
  - unfold mbind at 1. unfold M_bind at 1. unfold wrapf at 1.
    destruct (migrateLegacyBinary s w) as [[[]|e] w1]; reflexivity.
  - reflexivity.
Qed.

End bin_link.

(** *** Names next to the path of the binary *)

Lemma with_suffix_parent (p : path) (suffix : string) :
  p <> [] ->
  filepath.with_suffix p suffix = removelast p ++ [List.last p "" +:+ suffix].
Proof. by destruct p. Qed.

Lemma with_suffix_ne (p : path) (suffix : string) :
  suffix <> "" -> filepath.with_suffix p suffix <> p.
Proof.
  intros Hs. destruct (decide (p = [])) as [->|Hp]; [done|].
  rewrite with_suffix_parent by done.
  rewrite (app_removelast_last "" Hp) at 3.
  intros H. apply app_inv_head in H. injection H as H.
  apply (f_equal String.length) in H. rewrite string_app_length in H.
  destruct suffix; [done|]. simpl in H. lia.
Qed.

Lemma tempBinLink_ne s now : tempBinLink s now <> binPath s.
Proof.
  apply with_suffix_ne. intros H. apply (f_equal String.length) in H.
  rewrite string_app_length in H. simpl in H. lia.
Qed.

Lemma layout_binPath_not_nil s : layout_ok s -> binPath s <> [].
Proof. intros [_ H] E. apply H. rewrite E. apply prefix_nil. Qed.

Lemma layout_binPath_outside s x : layout_ok s -> binPath s <> dataDir s ++ x.
Proof. intros [H _] E. apply H. rewrite E. by eexists. Qed.

Lemma layout_tempBinLink_outside s now x y :
  layout_ok s -> tempBinLink s now <> dataDir s ++ x ++ [y].
Proof.
  intros Hl E. unfold tempBinLink in E.
  rewrite with_suffix_parent in E by by apply layout_binPath_not_nil.
  rewrite (assoc_L (++)) in E. apply app_inj_tail in E as [E _].
  apply (layout_binPath_outside s (x ++ [List.last (binPath s) ""]) Hl).
  rewrite (assoc_L (++)), <-E. apply app_removelast_last.
  by apply layout_binPath_not_nil.
Qed.

Lemma prefix_snoc_inv {A} (k d : list A) (x : A) :
  k `prefix_of` d ++ [x] -> k `prefix_of` d \/ k = d ++ [x].
Proof.
  intros [r Hr]. destruct (decide (r = [])) as [->|Hne].
  - right. by rewrite app_nil_r in Hr.
  - left. rewrite (app_removelast_last x Hne) in Hr.
    rewrite (assoc_L (++)) in Hr. apply app_inj_tail in Hr as [-> _]. by eexists.
Qed.

Lemma layout_binPath_not_prefix s n :
  layout_ok s -> ¬ binPath s `prefix_of` dataDir s ++ [n].
Proof.
  intros Hl [H|H]%prefix_snoc_inv.
  - by destruct Hl as [_ Hl].
  - by apply (layout_binPath_outside s [n]).
Qed.

Lemma bin_install_ok s w w' :
  bin_install s w = (Ok tt, w') ->
  w' = set_fs (tick w) (<[binPath s := Symlink (currentBinary s)]> (fs w)).
Proof.
  rewrite bin_install_run. cbv zeta.
  destruct (allowed _ _ (vfs.Symlink (fs w) _ _)) as [e|f1] eqn:E1; [done|].
  destruct (allowed _ _ (vfs.Rename f1 _ _)) as [e|f2] eqn:E2; [done|].
  intros [= <-]. f_equal.
  apply allowed_inr in E1 as [E1 _]. apply allowed_inr in E2 as [E2 _].
  apply vfs_facts.Symlink_inv in E1 as (Hnone & -> & _).
  apply (rename_facts.Rename_link _ _ _ _ (currentBinary s)) in E2;
    [|by rewrite lookup_insert_eq|apply tempBinLink_ne].
  rewrite E2. by rewrite delete_insert_id.
Qed.

Lemma updateBinSymlink_link_ok s w w' :
  (forall n, vfs.Lstat (fs w) (binPath s) = inr n -> vfs.IsSymlink n = true) ->
  updateBinSymlink s w = (Ok tt, w') ->
  w' = set_fs (tick w) (<[binPath s := Symlink (currentBinary s)]> (fs w)).
Proof.
  intros Hb. rewrite updateBinSymlink_run.
  destruct (vfs.Stat (fs w) (currentBinary s)) as [e|info]; [done|].
  destruct (vfs.Lstat (fs w) (binPath s)) as [e|n] eqn:El; [apply bin_install_ok|].
  specialize (Hb n eq_refl). destruct n; try done. apply bin_install_ok.
Qed.

(** When the path of the binary holds a symbolic link or nothing,
    updateBinSymlink, if it succeeds, changes exactly one entry of the file
    system: the path of the binary becomes a symbolic link to the binary
    under [current]. The temporary link is gone, the clock was read once,
    and nothing was logged. *)
Theorem updateBinSymlink_replaces_link (s : Supervisor) (w w' : World) :
  (forall n, vfs.Lstat (fs w) (binPath s) = inr n -> vfs.IsSymlink n = true) ->
  updateBinSymlink s w = (Ok tt, w') ->
  w' = set_fs (tick w) (<[binPath s := Symlink (currentBinary s)]> (fs w))
  /\ exists n, vfs.Stat (fs w) (currentBinary s) = inr n.
Proof.
  intros Hb H. split; [by apply updateBinSymlink_link_ok|].
  rewrite updateBinSymlink_run in H.
  destruct (vfs.Stat (fs w) (currentBinary s)) as [e|info]; [done|by eexists].
Qed.

Lemma updateBinSymlink_replaces_link_witness :
  (updateBinSymlink app_supervisor fixture.same_second).2
  = set_fs (tick fixture.same_second)
      (<[binPath app_supervisor := Symlink (currentBinary app_supervisor)]>
         (fs fixture.same_second))
  /\ exists n, vfs.Stat (fs fixture.same_second) (currentBinary app_supervisor) = inr n.
Proof.
  assert ((updateBinSymlink app_supervisor fixture.same_second).1 = Ok tt) as H
    by (vm_compute; reflexivity).
  apply fixture.run_pair in H.
  refine (updateBinSymlink_replaces_link app_supervisor _ _ _ H).
  intros n Hn. vm_compute in Hn. injection Hn as <-. reflexivity.
Defined.

(** ** The legacy migration *)

Lemma legacyBinaryPath_under s :
  legacyBinaryPath s = dataDir s ++ ["versions"; "legacy"; config.BinaryName (config s)].
Proof.
  unfold legacyBinaryPath, legacyVersionDir, filepath.Join.
  by rewrite <-!(assoc_L (++)).
Qed.

Lemma Lstat_not_nil (f : FS) (p : path) :
  p <> [] ->
  vfs.Lstat f p = match f !! p with Some n => inr n | None => inl ENOENT end.
Proof. by destruct p. Qed.

(** When the path of the binary holds a regular file (or a directory) and
    updateBinSymlink succeeds, that entry now sits, as it was, at
    [versions/legacy/<binary>] under the data directory; the path of the
    binary is a symbolic link to the binary under [current]; the clock was
    read twice; and either the backup link named after the first reading
    points to [versions/legacy] and the log gained the two lines of the
    migration, or no such link was made, the entry of that name is as
    before, and the log gained a warning between the two lines. *)
Theorem updateBinSymlink_migrates_legacy (s : Supervisor) (w w' : World) (n : node) :
  layout_ok s ->
  fs w !! binPath s = Some n -> vfs.IsSymlink n = false ->
  updateBinSymlink s w = (Ok tt, w') ->
  let backup := backupLink s (clock w (ticks w)) in
  fs w' !! legacyBinaryPath s = Some n
  /\ fs w' !! binPath s = Some (Symlink (currentBinary s))
  /\ ticks w' = (2 + ticks w)%nat
  /\ sigterm w' = sigterm w
  /\ ((fs w' !! backup = Some (Symlink (legacyVersionDir s))
       /\ log w' = log w ++ [migrating; migrated])
      \/ (fs w' !! backup = fs w !! backup
          /\ log w' = log w ++ [migrating; no_legacy_backup; migrated])).
Proof.
  intros Hl Hb Hn. rewrite updateBinSymlink_run.
  destruct (vfs.Stat (fs w) (currentBinary s)) as [e|info]; [done|].
  assert (binPath s <> []) as Hne by by apply layout_binPath_not_nil.
  rewrite (Lstat_not_nil _ _ Hne), Hb. assert (match n with Symlink _ => False | _ => True end) as Hn'
    by by destruct n.
  intros H backup.
  assert (match migrateLegacyBinary s w with
          | (Ok _, w1) => bin_install s w1
          | (Err e, w1) => (Err (Wrapf "failed to migrate legacy binary" e), w1)
          end = (Ok tt, w')) as H' by by destruct n.
  clear H. rewrite migrateLegacyBinary_run in H'.
  destruct (vfs.MkdirAll (fs w) (legacyVersionDir s)) as [e|f1] eqn:E1; [done|].
  destruct (allowed _ _ (vfs.Rename f1 (binPath s) (legacyBinaryPath s)))
    as [e|f2] eqn:E2; [done|].
  apply allowed_inr in E2 as [E2 _].
  fold backup in H'.
  (* the entries after the move *)
  assert (f1 !! binPath s = Some n) as Hb1.
  { rewrite (vfs_facts.MkdirAll_same_at _ _ _ _ E1); [done|].
    apply (layout_binPath_apart s "legacy" Hl). }
  assert (f2 !! legacyBinaryPath s = Some n) as Hmoved
    by (eapply rename_facts.Rename_dst; done).
  assert (f2 !! backup = fs w !! backup) as Hbk.
  { rewrite (rename_facts.Rename_frame _ _ _ _ _ E2).
    - apply (vfs_facts.MkdirAll_same_at _ _ _ _ E1).
      unfold legacyVersionDir, filepath.Join. intros [Hp|Hp]%prefix_snoc_inv.
      + apply prefix_snoc_inv in Hp as [Hp|Hp].
        * apply prefix_length in Hp. unfold backup, backupLink, filepath.Join in Hp.
          rewrite length_app in Hp. simpl in Hp. lia.
        * unfold backup, backupLink, filepath.Join in Hp. apply app_inj_tail in Hp as [_ Hp].
          by apply previous_not_versions in Hp.
      + apply (f_equal length) in Hp. unfold backup, backupLink, filepath.Join in Hp.
        rewrite !length_app in Hp. simpl in Hp. lia.
    - by apply layout_binPath_not_prefix.
    - intros Hp. apply prefix_length in Hp.
      unfold legacyBinaryPath, legacyVersionDir, backup, backupLink, filepath.Join in Hp.
      rewrite !length_app in Hp. simpl in Hp. lia. }
  (* the last two steps, from any store that holds the moved entry *)
  assert (forall f3 k lines w2,
            f3 !! legacyBinaryPath s = Some n ->
            bin_install s (noted w f3 k lines) = (Ok tt, w2) ->
            fs w2 !! legacyBinaryPath s = Some n
            /\ fs w2 !! binPath s = Some (Symlink (currentBinary s))
            /\ ticks w2 = S (k + ticks w) /\ sigterm w2 = sigterm w
            /\ log w2 = log w ++ lines
            /\ forall x, fs w2 !! (dataDir s ++ [x]) = f3 !! (dataDir s ++ [x])) as Hinstall.
  { clear H'. intros f3 k lines w2 H3. rewrite bin_install_run. cbv zeta.
    cbn [fs noted clock ticks].
    set (tmp := tempBinLink s (clock w (k + ticks w)%nat)).
    destruct (allowed _ _ (vfs.Symlink f3 _ tmp)) as [e|f4] eqn:E4; [done|].
    destruct (allowed _ _ (vfs.Rename f4 tmp (binPath s))) as [e|f5] eqn:E5; [done|].
    intros [= <-]. cbn [fs set_fs tick noted ticks sigterm log].
    apply allowed_inr in E4 as [E4 _]. apply allowed_inr in E5 as [E5 _].
    apply vfs_facts.Symlink_inv in E4 as (Hnone & -> & _).
    apply (rename_facts.Rename_link _ _ _ _ (currentBinary s)) in E5;
      [|by rewrite lookup_insert_eq|apply tempBinLink_ne].
    rewrite E5, delete_insert_id by done.
    split; [|split; [by rewrite lookup_insert_eq|]].
    - rewrite lookup_insert_ne; [done|].
      rewrite legacyBinaryPath_under. apply (layout_binPath_outside s _ Hl).
    - repeat split; try done. intros x. rewrite lookup_insert_ne; [done|].
      apply (layout_binPath_outside s _ Hl). }
  destruct (allowed _ _ (vfs.Symlink f2 (legacyVersionDir s) backup)) as [e|f3] eqn:E3.
  - apply Hinstall in H' as (H1 & H2 & H3 & H4 & H5 & H6); [|done].
    repeat split; try done. right. split; [|done].
    unfold backup, backupLink, filepath.Join. rewrite H6. exact Hbk.
  - apply allowed_inr in E3 as [E3 _].
    apply vfs_facts.Symlink_inv in E3 as (Hnone & -> & _).
    apply Hinstall in H' as (H1 & H2 & H3 & H4 & H5 & H6).
    + repeat split; try done. left. split; [|done].
      unfold backup, backupLink, filepath.Join. rewrite H6.
      by rewrite lookup_insert_eq.
    + rewrite lookup_insert_ne; [done|].
      intros E. apply (f_equal length) in E.
      unfold legacyBinaryPath, legacyVersionDir, backup, backupLink, filepath.Join in E.
      rewrite !length_app in E. simpl in E. lia.
Qed.

(** The default directories keep the two trees apart, whatever the name of
    the binary. *)
Lemma default_layout_ok (cfg : config.Config) (s : Supervisor) :
  config.BinaryDir cfg = ["usr"; "local"; "bin"] ->
  config.VersionsDir cfg = ["usr"; "local"; "lib"] ->
  New cfg = Ok s -> layout_ok s.
Proof.
  intros Hb Hv. unfold New. rewrite Hb, Hv.
  repeat (destruct (String.eqb _ _); [done|]).
  destruct (decide _); [done|].
  destruct (semver.NewVersion _); [|done].
  intros [= <-]. split; intros [r Hr]; discriminate Hr.
Qed.

Lemma app_layout_ok : layout_ok app_supervisor.
Proof. by apply (default_layout_ok app_config). Qed.

(** Version 1.2.3 unpacked and made current, next to a binary that was
    installed by hand. *)
Definition legacy_installed : World :=
  fixture.world (list_to_map (fixture.base_dirs ++
    [ (fixture.data, Dir); (fixture.data ++ ["versions"], Dir);
      (fixture.version_dir "1.2.3", Dir);
      (fixture.version_dir "1.2.3" ++ ["app"], File 493 fixture.elf_binary);
      (fixture.data ++ ["current"], Symlink (fixture.version_dir "1.2.3"));
      (["usr"; "local"; "bin"; "app"], File 448 fixture.elf_binary) ])).

Definition legacy_migrated : World := (updateBinSymlink app_supervisor legacy_installed).2.

Lemma updateBinSymlink_migrates_legacy_witness :
  let backup := backupLink app_supervisor (clock legacy_installed (ticks legacy_installed)) in
  fs legacy_migrated !! legacyBinaryPath app_supervisor = Some (File 448 fixture.elf_binary)
  /\ fs legacy_migrated !! binPath app_supervisor
     = Some (Symlink (currentBinary app_supervisor))
  /\ ticks legacy_migrated = (2 + ticks legacy_installed)%nat
  /\ sigterm legacy_migrated = sigterm legacy_installed
  /\ ((fs legacy_migrated !! backup = Some (Symlink (legacyVersionDir app_supervisor))
       /\ log legacy_migrated = log legacy_installed ++ [migrating; migrated])
      \/ (fs legacy_migrated !! backup = fs legacy_installed !! backup
          /\ log legacy_migrated
             = log legacy_installed ++ [migrating; no_legacy_backup; migrated])).
Proof.
  assert ((updateBinSymlink app_supervisor legacy_installed).1 = Ok tt) as H
    by (vm_compute; reflexivity).
  apply fixture.run_pair in H. fold legacy_migrated in H.
  assert (fs legacy_installed !! binPath app_supervisor
          = Some (File 448 fixture.elf_binary)) as Hb by (vm_compute; reflexivity).
  exact (updateBinSymlink_migrates_legacy app_supervisor legacy_installed legacy_migrated
           (File 448 fixture.elf_binary) app_layout_ok Hb eq_refl H).
Defined.

(** On that store the migration makes the backup link and logs no warning. *)
Example legacy_migrated_backup :
  fs legacy_migrated !! (fixture.data ++ ["previous-20240101-000000"])
  = Some (Symlink (fixture.version_dir "legacy"))
  /\ log legacy_migrated = [migrating; migrated]
  /\ fs legacy_migrated !! (fixture.version_dir "legacy" ++ ["app"])
     = Some (File 448 fixture.elf_binary).
Proof. repeat split; vm_compute; reflexivity. Qed.


(** ** A successful Rollback *)

Section rollback_success.
Variable s : Supervisor.

(** What Rollback does after the swap of the current link. *)
Definition Rollback_commit (latestBackup : path) : M unit :=
  wrapf "failed to update bin symlink" (updateBinSymlink s);;
  r ← attempt (os.Remove latestBackup);
  match r with
  | Err _ => slog.Warn "failed to remove backup symlink"
  | Ok _ => mret tt
  end;;
  wrapf "failed to send termination signal" syscall_Kill_self.

Lemma Rollback_install_run latestBackup target w :
  Rollback_install s latestBackup target w =
  let now := clock w (ticks w) in
  let r := refused w in
  match allowed r [(Creating, tempLinkNano s now)]
          (vfs.Symlink (fs w) target (tempLinkNano s now)) with
  | inl e => (Err (Wrapf "failed to create temporary symlink" (SysErr e)), tick w)
  | inr f1 =>
      match allowed r [(Renaming, tempLinkNano s now); (Renaming, currentLink s)]
              (vfs.Rename f1 (tempLinkNano s now) (currentLink s)) with
      | inr f2 => Rollback_commit latestBackup (set_fs (tick w) f2)
      | inl e =>
          (Err (Wrapf "failed to swap symlink" (SysErr e)),
           set_fs (tick w)
             (match allowed r [(Removing, tempLinkNano s now)]
                      (vfs.Remove f1 (tempLinkNano s now)) with
              | inr f3 => f3
              | inl _ => f1
              end))
      end
  end.
Proof.
  unfold Rollback_install. unfold mbind at 1. unfold M_bind at 1. rewrite time_Now_run.
  cbv zeta. unfold mbind at 1. unfold M_bind at 1.
  unfold wrapf at 1, os.Symlink at 1, change. change (fs (tick w)) with (fs w).
  change (refused (tick w)) with (refused w).
  destruct (allowed _ _ (vfs.Symlink (fs w) _ _)) as [e|f1]; [done|].
  unfold mbind at 1. unfold M_bind at 1. unfold attempt at 1, os.Rename at 1, change.
  cbn [fs set_fs refused].
  destruct (allowed _ _ (vfs.Rename f1 _ _)) as [e|f2]; [|reflexivity].
  unfold attempt, os.Remove, change, raise, mbind, M_bind. cbn [fs set_fs refused].
  by destruct (allowed _ _ (vfs.Remove f1 _)).
Qed.

Lemma tempLinkNano_ne now : tempLinkNano s now <> currentLink s.
Proof. apply Join_ne, tmp_not_current. Qed.

End rollback_success.

Lemma removelast_of_last {A} (l : list A) (x : A) :
  last l = Some x -> l = removelast l ++ [x].
Proof. intros [l' ->]%last_Some. by rewrite removelast_last. Qed.

Definition backup_kept : level * string := (WARN, "failed to remove backup symlink").

(** The world after a successful Rollback, when the data directory is a
    directory under its own name and the path of the binary held a symbolic
    link or nothing. *)
Lemma Rollback_ok_inv (s : Supervisor) (w w' : World) :
  layout_ok s ->
  real_dir (fs w) (dataDir s) ->
  (forall n, vfs.Lstat (fs w) (binPath s) = inr n -> vfs.IsSymlink n = true) ->
  Rollback s w = (Ok tt, w') ->
  exists name target,
    is_previous name = true
    /\ last (backup_links s (fs w)) = Some (dataDir s ++ [name])
    /\ fs w !! (dataDir s ++ [name]) = Some (Symlink target)
    /\ verify_outcome (fs w) (filepath.Join target (config.BinaryName (config s))) = Ok tt
    /\ sigterm w' = S (sigterm w) /\ refused w' = refused w
    /\ real_dir (fs w') (dataDir s)
    /\ ((refused w Removing (dataDir s ++ [name]) = None
         /\ fs w' = delete (dataDir s ++ [name])
                      (<[binPath s := Symlink (currentBinary s)]>
                         (<[currentLink s := Symlink target]> (fs w)))
         /\ log w' = log w
         /\ backup_links s (fs w') = removelast (backup_links s (fs w)))
        \/ (is_Some (refused w Removing (dataDir s ++ [name]))
            /\ fs w' = <[binPath s := Symlink (currentBinary s)]>
                         (<[currentLink s := Symlink target]> (fs w))
            /\ log w' = log w ++ [backup_kept]
            /\ backup_links s (fs w') = backup_links s (fs w))).
Proof.
  intros Hl Hreal Hb. rewrite Rollback_run, (real_dir_ReadDir _ _ Hreal).
  change (links_of s (merge_sort vfs.name_le (vfs.children (fs w) (dataDir s))))
    with (backup_links s (fs w)).
  destruct (last (backup_links s (fs w))) as [latest|] eqn:Elast; [|done].
  unfold vfs.Readlink.
  destruct (fs w !! latest) as [[m d| |target]|] eqn:Elatest; try done; [|by destruct latest].
  destruct (verify_outcome (fs w) _) as [[]|e] eqn:Ev; [|done].
  rewrite Rollback_install_run. cbv zeta.
  destruct (allowed _ _ (vfs.Symlink (fs w) target _)) as [e|f1] eqn:E1; [done|].
  destruct (allowed _ _ (vfs.Rename f1 _ _)) as [e|f2] eqn:E2; [done|].
  apply allowed_inr in E1 as [E1 _]. apply allowed_inr in E2 as [E2 _].
  apply vfs_facts.Symlink_inv in E1 as (Hnone & -> & _).
  apply (rename_facts.Rename_link _ _ _ _ target) in E2;
    [|by rewrite lookup_insert_eq|apply tempLinkNano_ne].
  rewrite delete_insert_id in E2 by done. subst f2.
  (* the backup link is an entry of the data directory *)
  pose proof (removelast_of_last _ _ Elast) as Hlist.
  assert (latest ∈ backup_links s (fs w)) as Hin
    by (rewrite Hlist; apply elem_of_app; right; by left).
  apply elem_of_backup_links in Hin as (n & t & -> & Hn & _).
  assert (forall n', is_previous n' = true -> dataDir s ++ [n'] <> currentLink s) as Hcur.
  { intros n' Hn' E. apply Join_inj in E. by rewrite E, is_previous_current in Hn'. }
  assert (forall n', binPath s <> dataDir s ++ [n']) as Hbin
    by (intros n'; apply (layout_binPath_outside s [n'] Hl)).
  (* the commit *)
  unfold Rollback_commit. intros H.
  apply bind_inv in H as [(e & H & ?)|([] & w2 & H & H')]; [done|].
  apply wrapf_inv in H as [(e & _ & ?)|([] & H & _)]; [done|].
  apply updateBinSymlink_link_ok in H.
  2:{ cbn [fs set_fs]. intros x. rewrite !Lstat_not_nil by by apply layout_binPath_not_nil.
      rewrite lookup_insert_ne by (symmetry; apply Hbin).
      intros Hx. apply Hb. by rewrite Lstat_not_nil by by apply layout_binPath_not_nil. }
  cbn [fs set_fs tick] in H. subst w2.
  apply bind_inv in H' as [(e & H' & ?)|(r & w3 & H' & H'')]; [done|].
  apply attempt_inv in H' as (r0 & H' & [= ->]).
  unfold os.Remove, change in H'. cbn [fs set_fs refused tick] in H'.
  rewrite (vfs_facts.Remove_symlink _ _ target) in H'.
  2:{ rewrite lookup_insert_ne by apply Hbin.
      rewrite lookup_insert_ne by (symmetry; by apply Hcur). exact Elatest. }
  unfold allowed, refusal in H'.
  set (base := <[binPath s := Symlink (currentBinary s)]>
                 (<[currentLink s := Symlink target]> (fs w))) in *.
  assert (forall p, p <> binPath s -> p <> currentLink s -> base !! p = fs w !! p) as Hbase.
  { intros p H1 H2. unfold base. rewrite lookup_insert_ne by done.
    by rewrite lookup_insert_ne. }
  assert (forall f', (forall q, (exists n', q = dataDir s ++ [n']) \/ q = binPath s \/
                           f' !! q = fs w !! q) -> real_dir f' (dataDir s)) as Hkeep.
  { intros f' Hf'. apply (real_dir_ext (fs w)); [|done]. intros q Hq Hp.
    destruct (Hf' q) as [[n' ->]|[->|?]]; [| |done].
    - apply prefix_length in Hp. rewrite length_app in Hp. simpl in Hp. lia.
    - by destruct Hl as [_ Hl]. }
  exists n, target. split; [done|]. split; [done|]. split; [done|]. split; [done|].
  destruct (refused w Removing (dataDir s ++ [n])) as [e|] eqn:Er.
  - (* the removal is refused *)
    injection H' as <- <-.
    unfold slog.Warn, slog.emit, mbind, M_bind, wrapf, syscall_Kill_self in H''.
    injection H'' as <-.
    cbn [fs set_fs sigterm log refused tick].
    split; [done|]. split; [done|]. split.
    { apply Hkeep. intros q. destruct (decide (q = binPath s)) as [->|?]; [by right; left|].
      destruct (decide (q = currentLink s)) as [->|?]; [left; by eexists|].
      right; right. by apply Hbase. }
    right. split; [by eexists|]. split; [done|]. split; [done|].
    apply backup_links_ext. intros n' Hn'. unfold vfs_facts.link_target.
    rewrite Hbase; [done|by symmetry|by apply Hcur].
  - (* the link is removed *)
    injection H' as <- <-.
    unfold mbind, M_bind, mret, M_ret, wrapf, syscall_Kill_self in H''.
    injection H'' as <-.
    cbn [fs set_fs sigterm log refused tick].
    split; [done|]. split; [done|]. split.
    { apply Hkeep. intros q.
      destruct (decide (q = dataDir s ++ [n])) as [->|?]; [left; by eexists|].
      destruct (decide (q = binPath s)) as [->|?]; [by right; left|].
      destruct (decide (q = currentLink s)) as [->|?]; [left; by eexists|].
      right; right. rewrite lookup_delete_ne by done. by apply Hbase. }
    left. split; [done|]. split; [done|]. split; [done|].
    set (f' := delete (dataDir s ++ [n]) base).
    assert (forall p, p <> dataDir s ++ [n] -> p <> binPath s -> p <> currentLink s ->
                      f' !! p = fs w !! p) as Hframe.
    { intros p H1 H2 H3. unfold f'. rewrite lookup_delete_ne by done. by apply Hbase. }
    symmetry. apply backup_links_unique.
    + pose proof (backup_links_sorted s (fs w)) as Hs. rewrite Hlist in Hs.
      by apply StronglySorted_app_1_l in Hs.
    + pose proof (backup_links_NoDup s (fs w)) as Hnd. rewrite Hlist in Hnd.
      by apply NoDup_app in Hnd as (? & _ & _).
    + pose proof (backup_links_NoDup s (fs w)) as Hnd. rewrite Hlist in Hnd.
      apply NoDup_app in Hnd as (_ & Hdisj & _).
      intros p. split.
      * intros Hp. assert (p <> dataDir s ++ [n]) as Hp1.
        { intros ->. apply (Hdisj _ Hp). by left. }
        assert (p ∈ backup_links s (fs w)) as Hp2
          by (rewrite Hlist; apply elem_of_app; by left).
        apply elem_of_backup_links in Hp2 as (n' & t' & -> & Hn' & Hf).
        apply elem_of_backup_links. exists n', t'. repeat split; try done.
        rewrite Hframe; [done|done|by symmetry|by apply Hcur].
      * intros (n' & t' & -> & Hn' & Hf)%elem_of_backup_links.
        assert (dataDir s ++ [n'] <> dataDir s ++ [n]) as Hp1.
        { intros E. rewrite E in Hf. unfold f' in Hf. by rewrite lookup_delete_eq in Hf. }
        rewrite Hframe in Hf; [|done|by symmetry|by apply Hcur].
        assert (dataDir s ++ [n'] ∈ backup_links s (fs w)) as Hp2
          by (apply elem_of_backup_links; by exists n', t').
        rewrite Hlist in Hp2. apply elem_of_app in Hp2 as [?|Hp2]; [done|].
        by apply list_elem_of_singleton in Hp2.
Qed.

(** When the data directory is a directory under its own name, the path of
    the binary holds a symbolic link or nothing, and Rollback returns nil,
    then: the backup link that sorts last existed and the binary under its
    target was verified; afterwards the current link points to that target,
    the path of the binary points to the binary under [current], and every
    other entry but that backup link is as before; the signal was sent once.
    The backup link itself is gone, with nothing logged and the list of
    backup links shortened by its last element; or, when the system refuses
    its removal, it is still there, a warning is logged and the list is as
    before. *)
Theorem Rollback_success (s : Supervisor) (w w' : World) :
  layout_ok s ->
  real_dir (fs w) (dataDir s) ->
  (forall n, vfs.Lstat (fs w) (binPath s) = inr n -> vfs.IsSymlink n = true) ->
  Rollback s w = (Ok tt, w') ->
  exists latest target,
    last (backup_links s (fs w)) = Some latest
    /\ fs w !! latest = Some (Symlink target)
    /\ (verifyBinary (filepath.Join target (config.BinaryName (config s))) w).1 = Ok tt
    /\ fs w' !! currentLink s = Some (Symlink target)
    /\ fs w' !! binPath s = Some (Symlink (currentBinary s))
    /\ (forall k, k <> currentLink s -> k <> binPath s -> k <> latest ->
          fs w' !! k = fs w !! k)
    /\ sigterm w' = S (sigterm w)
    /\ ((fs w' !! latest = None /\ log w' = log w
         /\ backup_links s (fs w') = removelast (backup_links s (fs w)))
        \/ (is_Some (refused w Removing latest)
            /\ fs w' !! latest = Some (Symlink target)
            /\ log w' = log w ++ [backup_kept]
            /\ backup_links s (fs w') = backup_links s (fs w))).
Proof.
  intros Hl Hreal Hb H.
  destruct (Rollback_ok_inv s w w' Hl Hreal Hb H)
    as (n & target & Hn & Hlast & Hlink & Hv & Hsig & _ & _ & Hcases).
  exists (dataDir s ++ [n]), target.
  assert (dataDir s ++ [n] <> currentLink s) as Hcur.
  { intros E. apply Join_inj in E. by rewrite E, is_previous_current in Hn. }
  assert (binPath s <> dataDir s ++ [n]) as Hbin
    by apply (layout_binPath_outside s [n] Hl).
  assert (binPath s <> currentLink s) as Hbc
    by apply (layout_binPath_outside s ["current"] Hl).
  split; [done|]. split; [done|]. split; [by rewrite verifyBinary_outcome|].
  destruct Hcases as [(Hfree & Hfs & Hlog & Hlinks)|(Href & Hfs & Hlog & Hlinks)].
  - repeat split.
    + rewrite Hfs, lookup_delete_ne by done. rewrite lookup_insert_ne by done.
      by rewrite lookup_insert_eq.
    + rewrite Hfs, lookup_delete_ne by done. by rewrite lookup_insert_eq.
    + intros k H1 H2 H3. rewrite Hfs, lookup_delete_ne by done.
      rewrite lookup_insert_ne by done. by rewrite lookup_insert_ne.
    + done.
    + left. split; [by rewrite Hfs, lookup_delete_eq|done].
  - repeat split.
    + rewrite Hfs, lookup_insert_ne by done. by rewrite lookup_insert_eq.
    + by rewrite Hfs, lookup_insert_eq.
    + intros k H1 H2 H3. rewrite Hfs, lookup_insert_ne by done.
      by rewrite lookup_insert_ne.
    + done.
    + right. split; [done|]. split; [|done].
      rewrite Hfs, lookup_insert_ne by done. by rewrite lookup_insert_ne.
Qed.

(** Two Rollbacks in a row walk two steps back. When the data directory and
    the path of the binary do not lie inside one another, the data directory
    is a directory under its own name, the path of the binary holds a
    symbolic link or nothing, both Rollbacks return nil and neither logs a
    line, then: the list of backup links before the first ended in two links
    [a] and [b]; the first Rollback makes [b]'s target current and consumes
    [b], the second makes [a]'s target current and consumes [a]; the older
    links are left as they were. *)
Theorem Rollback_twice (s : Supervisor) (w w1 w2 : World) :
  layout_ok s ->
  real_dir (fs w) (dataDir s) ->
  (forall n, vfs.Lstat (fs w) (binPath s) = inr n -> vfs.IsSymlink n = true) ->
  Rollback s w = (Ok tt, w1) ->
  Rollback s w1 = (Ok tt, w2) ->
  log w2 = log w ->
  exists older a b ta tb,
    backup_links s (fs w) = older ++ [a; b]
    /\ fs w !! a = Some (Symlink ta) /\ fs w !! b = Some (Symlink tb)
    /\ fs w1 !! currentLink s = Some (Symlink tb)
    /\ backup_links s (fs w1) = older ++ [a]
    /\ fs w2 !! currentLink s = Some (Symlink ta)
    /\ backup_links s (fs w2) = older
    /\ sigterm w2 = S (S (sigterm w)).
Proof.
  intros Hl Hreal Hb H1 H2 Hquiet.
  destruct (Rollback_ok_inv s w w1 Hl Hreal Hb H1)
    as (nb & tb & Hnb & Hlast1 & Hlink1 & _ & Hsig1 & Href1 & Hreal1 & Hcases1).
  assert (binPath s <> currentLink s) as Hbc
    by apply (layout_binPath_outside s ["current"] Hl).
  assert (forall n, is_previous n = true -> dataDir s ++ [n] <> currentLink s) as Hcur.
  { intros n Hn E. apply Join_inj in E. by rewrite E, is_previous_current in Hn. }
  assert (forall n, binPath s <> dataDir s ++ [n]) as Hbin
    by (intros n; apply (layout_binPath_outside s [n] Hl)).
  assert (fs w1 !! binPath s = Some (Symlink (currentBinary s))) as Hb1.
  { destruct Hcases1 as [(_ & -> & _)|(_ & -> & _)].
    - rewrite lookup_delete_ne by (symmetry; apply Hbin). by rewrite lookup_insert_eq.
    - by rewrite lookup_insert_eq. }
  destruct (Rollback_ok_inv s w1 w2 Hl Hreal1) as
    (na & ta & Hna & Hlast2 & Hlink2 & _ & Hsig2 & _ & _ & Hcases2); [|done|].
  { intros n. rewrite Lstat_not_nil by by apply layout_binPath_not_nil.
    rewrite Hb1. by intros [= <-]. }
  (* no line was logged, so both links were removed *)
  assert (log w1 = log w /\ log w2 = log w1) as [Hlog1 Hlog2].
  { destruct Hcases1 as [(_ & _ & Hq1 & _)|(_ & _ & Hq1 & _)];
      destruct Hcases2 as [(_ & _ & Hq2 & _)|(_ & _ & Hq2 & _)]; [done| | |];
      exfalso; rewrite Hq2, Hq1 in Hquiet; apply (f_equal length) in Hquiet;
      rewrite ?length_app in Hquiet; simpl in Hquiet; lia. }
  destruct Hcases1 as [(_ & Hfs1 & _ & Hlinks1)|(_ & _ & Hq1 & _)].
  2:{ rewrite Hlog1 in Hq1. apply (f_equal length) in Hq1.
      rewrite length_app in Hq1. simpl in Hq1. lia. }
  destruct Hcases2 as [(_ & Hfs2 & _ & Hlinks2)|(_ & _ & Hq2 & _)].
  2:{ rewrite Hlog2 in Hq2. apply (f_equal length) in Hq2.
      rewrite length_app in Hq2. simpl in Hq2. lia. }
  apply removelast_of_last in Hlast1. apply removelast_of_last in Hlast2.
  rewrite Hlinks1 in Hlast2, Hlinks2.
  set (older := removelast (removelast (backup_links s (fs w)))) in *.
  exists older, (dataDir s ++ [na]), (dataDir s ++ [nb]), ta, tb.
  assert (dataDir s ++ [na] <> dataDir s ++ [nb]) as Hab.
  { intros E. rewrite E, Hfs1 in Hlink2. by rewrite lookup_delete_eq in Hlink2. }
  repeat split; try done.
  - rewrite Hlast1. rewrite Hlast2 at 1. by rewrite <-(assoc_L (++)).
  - rewrite Hfs1 in Hlink2. rewrite lookup_delete_ne in Hlink2 by done.
    rewrite lookup_insert_ne in Hlink2 by apply Hbin.
    rewrite lookup_insert_ne in Hlink2; [done|]. symmetry. by apply Hcur.
  - rewrite Hfs1. rewrite lookup_delete_ne by by apply Hcur.
    rewrite lookup_insert_ne by done. by rewrite lookup_insert_eq.
  - by rewrite Hlinks1.
  - rewrite Hfs2. rewrite lookup_delete_ne by by apply Hcur.
    rewrite lookup_insert_ne by done. by rewrite lookup_insert_eq.
  - by rewrite Hsig2, Hsig1.
Qed.

(** Version 1.2.3 installed after 1.2.1 and 1.2.2, with a backup link for
    each of the two. *)
Definition two_backups : World :=
  fixture.world (list_to_map (fixture.base_dirs ++
    [ (fixture.data, Dir); (fixture.data ++ ["versions"], Dir);
      (fixture.version_dir "1.2.1", Dir);
      (fixture.version_dir "1.2.1" ++ ["app"], File 493 fixture.elf_binary);
      (fixture.version_dir "1.2.2", Dir);
      (fixture.version_dir "1.2.2" ++ ["app"], File 493 fixture.elf_binary);
      (fixture.version_dir "1.2.3", Dir);
      (fixture.version_dir "1.2.3" ++ ["app"], File 493 fixture.elf_binary);
      (fixture.data ++ ["current"], Symlink (fixture.version_dir "1.2.3"));
      (fixture.data ++ ["previous-20231224-180000"], Symlink (fixture.version_dir "1.2.1"));
      (fixture.data ++ ["previous-20231225-180000"], Symlink (fixture.version_dir "1.2.2"));
      (["usr"; "local"; "bin"; "app"], Symlink (fixture.data ++ ["current"; "app"])) ])).

Definition rolled_back : World := (Rollback app_supervisor two_backups).2.
Definition rolled_back_twice : World := (Rollback app_supervisor rolled_back).2.

Lemma two_backups_real_dir : real_dir (fs two_backups) (dataDir app_supervisor).
Proof. vm_compute. reflexivity. Qed.

Lemma two_backups_bin_link n :
  vfs.Lstat (fs two_backups) (binPath app_supervisor) = inr n -> vfs.IsSymlink n = true.
Proof. intros Hn. vm_compute in Hn. injection Hn as <-. reflexivity. Qed.

Lemma Rollback_success_witness :
  exists latest target,
    last (backup_links app_supervisor (fs two_backups)) = Some latest
    /\ fs two_backups !! latest = Some (Symlink target)
    /\ (verifyBinary (filepath.Join target (config.BinaryName (config app_supervisor)))
          two_backups).1 = Ok tt
    /\ fs rolled_back !! currentLink app_supervisor = Some (Symlink target)
    /\ fs rolled_back !! binPath app_supervisor
       = Some (Symlink (currentBinary app_supervisor))
    /\ (forall k, k <> currentLink app_supervisor -> k <> binPath app_supervisor ->
          k <> latest -> fs rolled_back !! k = fs two_backups !! k)
    /\ sigterm rolled_back = S (sigterm two_backups)
    /\ ((fs rolled_back !! latest = None /\ log rolled_back = log two_backups
         /\ backup_links app_supervisor (fs rolled_back)
            = removelast (backup_links app_supervisor (fs two_backups)))
        \/ (is_Some (refused two_backups Removing latest)
            /\ fs rolled_back !! latest = Some (Symlink target)
            /\ log rolled_back = log two_backups ++ [backup_kept]
            /\ backup_links app_supervisor (fs rolled_back)
               = backup_links app_supervisor (fs two_backups))).
Proof.
  assert ((Rollback app_supervisor two_backups).1 = Ok tt) as H
    by (vm_compute; reflexivity).
  apply fixture.run_pair in H. fold rolled_back in H.
  exact (Rollback_success app_supervisor two_backups rolled_back
           app_layout_ok two_backups_real_dir two_backups_bin_link H).
Defined.

Lemma Rollback_twice_witness :
  exists older a b ta tb,
    backup_links app_supervisor (fs two_backups) = older ++ [a; b]
    /\ fs two_backups !! a = Some (Symlink ta) /\ fs two_backups !! b = Some (Symlink tb)
    /\ fs rolled_back !! currentLink app_supervisor = Some (Symlink tb)
    /\ backup_links app_supervisor (fs rolled_back) = older ++ [a]
    /\ fs rolled_back_twice !! currentLink app_supervisor = Some (Symlink ta)
    /\ backup_links app_supervisor (fs rolled_back_twice) = older
    /\ sigterm rolled_back_twice = S (S (sigterm two_backups)).
Proof.
  assert ((Rollback app_supervisor two_backups).1 = Ok tt) as H1
    by (vm_compute; reflexivity).
  apply fixture.run_pair in H1. fold rolled_back in H1.
  assert ((Rollback app_supervisor rolled_back).1 = Ok tt) as H2
    by (vm_compute; reflexivity).
  apply fixture.run_pair in H2. fold rolled_back_twice in H2.
  assert (log rolled_back_twice = log two_backups) as Hq by (vm_compute; reflexivity).
  exact (Rollback_twice app_supervisor two_backups rolled_back rolled_back_twice
           app_layout_ok two_backups_real_dir two_backups_bin_link H1 H2 Hq).
Defined.

(** On that store two Rollbacks lead from 1.2.3 over 1.2.2 to 1.2.1, the
    oldest of the three, and use up both backup links; a third finds none. *)
Example Rollback_to_the_oldest :
  vfs_facts.link_target (fs rolled_back) (currentLink app_supervisor)
  = Some (fixture.version_dir "1.2.2")
  /\ vfs_facts.link_target (fs rolled_back_twice) (currentLink app_supervisor)
     = Some (fixture.version_dir "1.2.1")
  /\ backup_links app_supervisor (fs rolled_back_twice) = []
  /\ (Rollback app_supervisor rolled_back_twice).1
     = Err (Errorf "no backup symlinks found, cannot rollback").
Proof. repeat split; vm_compute; reflexivity. Qed.

(** When the system refuses every removal, Rollback still returns nil: the
    current link moves to 1.2.2, the consumed link stays with a warning in
    the log, and a second Rollback takes the same link again. *)
Definition no_removal (c : change_kind) (p : path) : option errno :=
  match c with Removing => Some EPERM | _ => None end.

Example Rollback_link_kept :
  let v := refusing two_backups no_removal in
  let v1 := (Rollback app_supervisor v).2 in
  let v2 := (Rollback app_supervisor v1).2 in
  (Rollback app_supervisor v).1 = Ok tt
  /\ vfs_facts.link_target (fs v1) (currentLink app_supervisor)
     = Some (fixture.version_dir "1.2.2")
  /\ backup_links app_supervisor (fs v1) = backup_links app_supervisor (fs v)
  /\ log v1 = [backup_kept]
  /\ (Rollback app_supervisor v1).1 = Ok tt
  /\ vfs_facts.link_target (fs v2) (currentLink app_supervisor)
     = Some (fixture.version_dir "1.2.2").
Proof. vm_compute. repeat split; reflexivity. Qed.

(** With a regular file at the path of the binary the first Rollback
    migrates it and so adds a backup link to [versions/legacy], which sorts
    last: the second Rollback lands on the legacy binary, and the link to
    1.2.1 is not consumed. *)
Definition two_backups_legacy : World :=
  fixture.world (<[ ["usr"; "local"; "bin"; "app"] := File 493 fixture.elf_binary ]>
                   (fs two_backups)).

Example Rollback_over_legacy_binary :
  let v1 := (Rollback app_supervisor two_backups_legacy).2 in
  let v2 := (Rollback app_supervisor v1).2 in
  (Rollback app_supervisor two_backups_legacy).1 = Ok tt
  /\ (Rollback app_supervisor v1).1 = Ok tt
  /\ vfs_facts.link_target (fs v2) (currentLink app_supervisor)
     = Some (fixture.version_dir "legacy")
  /\ backup_links app_supervisor (fs v2)
     = [fixture.data ++ ["previous-20231224-180000"]].
Proof. vm_compute. repeat split; reflexivity. Qed.
